(** * ZapStack relay client: the Nostr service and its aggregations

    A shallow embedding of [src/app/services/nostr.service.ts].  The
    service talks to one relay through the nostr-tools library; every
    call into the relay, the key store, the clock and the console is an
    [Effect], an operation of the service is a program over these
    effects, and a [World] answers them.  Values that the service
    obtains from [JSON.parse] are dynamically typed and are modelled by
    [jsval]; JavaScript numbers are IEEE binary64 values of the
    [SpecFloat] library. *)

From Stdlib Require Import ZArith List String Ascii Lia Bool.
From Stdlib Require Import Floats.SpecFloat.
From stdpp Require Import gmap strings list fin_maps pretty.
Import ListNotations.

Set Warnings "-register-all".

Local Open Scope Z_scope.
Local Open Scope string_scope.

(** ** Errors and completions *)

(** What a [throw] carries.  [Error msg] is [new Error(msg)] of the
    service itself; [SyntaxError] and [TypeError] are raised by the
    runtime ([JSON.parse] of a malformed text, a property read on
    [null] or [undefined], a call of something that is not a function);
    [LibraryError] is whatever nostr-tools throws while signing;
    [Reason r] is the reason the relay gives with a [failed]
    acknowledgement, which [publishEvent] passes to [reject]. *)
Inductive JsError : Type :=
| Error (message : string)
| SyntaxError
| TypeError
| LibraryError (what : string)
| Reason (r : string).

(** The completion of a synchronous piece of code. *)
Inductive result (A : Type) : Type :=
| Ok (a : A)
| Thrown (e : JsError).
Arguments Ok {A} a.
Arguments Thrown {A} e.

#[export] Instance result_ret : MRet result := fun A a => Ok a.
#[export] Instance result_bind : MBind result := fun A B f r =>
  match r with
  | Ok a => f a
  | Thrown e => Thrown e
  end.

(** ** JavaScript values *)

(** binary64: 53 bits of precision, exponents below 1024. *)
Definition prec : Z := 53.
Definition emax : Z := 1024.
Definition number : Type := spec_float.
Definition number_of_Z (z : Z) : number := binary_normalize prec emax z 0 false.
Definition number_add : number -> number -> number := SFadd prec emax.
Definition number_div : number -> number -> number := SFdiv prec emax.

(** A value as [JSON.parse] builds it, and [undefined].  The members
    of an object are listed in the order of the source text; when a
    key occurs twice the later member is the property. *)
Inductive jsval : Type :=
| JUndefined
| JNull
| JBool (b : bool)
| JNum (n : number)
| JStr (s : string)
| JArr (elems : list jsval)
| JObj (members : list (string * jsval)).

(** [ToBoolean]: what [if (v)] and [v ? a : b] test. *)
Definition truthy (v : jsval) : bool :=
  match v with
  | JUndefined | JNull => false
  | JBool b => b
  | JNum (S754_zero _) | JNum S754_nan => false
  | JNum _ => true
  | JStr s => negb (s =? "")
  | JArr _ | JObj _ => true
  end.

(** The own property [key] of an object built by [JSON.parse]:
    the last member of that name. *)
Fixpoint own_property (members : list (string * jsval)) (key : string) : option jsval :=
  match members with
  | [] => None
  | (k, v) :: rest =>
      match own_property rest key with
      | Some later => Some later
      | None => if k =? key then Some v else None
      end
  end.

(** [v.key] for a [key] that no built-in prototype defines and that is
    neither an index nor [length] (the service reads [name], [about]
    and [tags]).  Reading a property of [null] or [undefined] throws;
    a primitive or an array has no such property. *)
Definition get_member (v : jsval) (key : string) : result jsval :=
  match v with
  | JUndefined | JNull => Thrown TypeError
  | JObj members => Ok (default JUndefined (own_property members key))
  | _ => Ok JUndefined
  end.

(** The decimal spelling of an index, as a property key. *)
Definition index_key (i : nat) : string := pretty i.

(** [v[i]] for a literal index [i].  An array answers with its
    element, an object with its own property of that name, a string
    with its [i]-th character (characters are bytes here, which is
    exact for ASCII text), a number or a boolean with [undefined]. *)
Definition get_index (v : jsval) (i : nat) : result jsval :=
  match v with
  | JUndefined | JNull => Thrown TypeError
  | JArr elems => Ok (default JUndefined (nth_error elems i))
  | JObj members => Ok (default JUndefined (own_property members (index_key i)))
  | JStr s =>
      Ok (match String.get i s with
          | Some c => JStr (String c "")
          | None => JUndefined
          end)
  | JBool _ | JNum _ => Ok JUndefined
  end.

(** [v === s] for a string [s]. *)
Definition strict_equal_string (v : jsval) (s : string) : bool :=
  match v with
  | JStr s' => s' =? s
  | _ => false
  end.

(** What the service needs from the runtime and is not its own code.
    [JSON_parse] answers [None] where [JSON.parse] throws a
    [SyntaxError].  [StringToNumber] is [Number] applied to a string,
    [ObjectToNumber] is [Number] applied to an array or an object
    (which goes through [toString] and can throw). *)
Class Runtime : Type := {
  JSON_parse : string -> option jsval;
  StringToNumber : string -> number;
  ObjectToNumber : jsval -> result number
}.

(** [Number(v)]. *)
Definition ToNumber `{Runtime} (v : jsval) : result number :=
  match v with
  | JUndefined => Ok S754_nan
  | JNull => Ok (S754_zero false)
  | JBool b => Ok (number_of_Z (if b then 1 else 0))
  | JNum n => Ok n
  | JStr s => Ok (StringToNumber s)
  | JArr _ | JObj _ => ObjectToNumber v
  end.

(** ** Events and filters (nostr-tools) *)

Record Event : Type := {
  ev_id : string;
  pubkey : string;
  created_at : Z;
  kind : Z;
  tags : list (list string);
  content : string;
  ev_sig : string
}.

Record EventTemplate : Type := {
  t_kind : Z;
  t_created_at : Z;
  t_tags : list (list string);
  t_content : string
}.

(** A filter; an absent constraint is [None].  [f_t], [f_e] and [f_p]
    are the tag constraints [#t], [#e] and [#p]. *)
Record Filter : Type := {
  kinds : option (list Z);
  ids : option (list string);
  authors : option (list string);
  f_t : option (list string);
  f_e : option (list string);
  f_p : option (list string);
  limit : option Z
}.

Definition ZAPSTACK_TAG : string := "zapstack_test".

(** What the service takes from nostr-tools and from the text
    encoders of the runtime.  [finishEvent] computes the id and the
    signature of a template with a private key and throws on a key
    that is not one; [Number_toString] is [Number.prototype.toString]. *)
Class Library : Type := {
  finishEvent : EventTemplate -> string -> result Event;
  Number_toString : number -> string;
  JSON_stringify : jsval -> string;
  JSON_stringify_event : Event -> string;
  encodeURIComponent : string -> string
}.

(** ** Effects and programs *)

(** The relay's answer to a published event: the [ok] callback, the
    [failed] callback with its reason, or neither of them, ever. *)
Inductive PubAck : Type :=
| ack_ok
| ack_failed (reason : string)
| ack_none.

Inductive LogArg : Type :=
| log_text (s : string)
| log_event (e : Event).

(** One constructor per call that leaves the service: [this.relay.list],
    [this.relay.get], [this.relay.publish] with the acknowledgement
    its callbacks receive, [this.relay.url], the two accessors of the
    key service, [Date.now()] in milliseconds and [console.log]. *)
Inductive Effect : Type -> Type :=
| relay_list (filters : list Filter) : Effect (list Event)
| relay_get (filter : Filter) : Effect (option Event)
| relay_publish (e : Event) : Effect PubAck
| relay_url : Effect string
| getPrivKey : Effect string
| getPubKey : Effect string
| Date_now : Effect Z
| console_log (args : list LogArg) : Effect unit.

(** A run of an operation: it returns, throws, waits for a callback
    that never comes, or performs an effect and goes on with its
    answer. *)
Inductive Prog (A : Type) : Type :=
| Return (a : A)
| Throw (e : JsError)
| Forever
| Perform {X : Type} (eff : Effect X) (k : X -> Prog A).
Arguments Return {A} a.
Arguments Throw {A} e.
Arguments Forever {A}.
Arguments Perform {A X} eff k.

Fixpoint prog_bind {A B : Type} (f : A -> Prog B) (p : Prog A) : Prog B :=
  match p with
  | Return a => f a
  | Throw e => Throw e
  | Forever => Forever
  | Perform eff k => Perform eff (fun x => prog_bind f (k x))
  end.

#[export] Instance Prog_ret : MRet Prog := fun A a => Return a.
#[export] Instance Prog_bind : MBind Prog := fun A B f p => prog_bind f p.

Definition perform {X : Type} (eff : Effect X) : Prog X := Perform eff Return.

(** A synchronous completion inside a program. *)
Definition lift {A : Type} (r : result A) : Prog A :=
  match r with
  | Ok a => Return a
  | Thrown e => Throw e
  end.

(** How a call ends for its caller.  For the [async] operations and
    those that return a promise this is the state of the promise; for
    [getZapRequest], which is synchronous, [Resolved] is its return
    value and [Rejected] its exception. *)
Inductive Outcome (A : Type) : Type :=
| Resolved (a : A)
| Rejected (e : JsError)
| Unsettled.
Arguments Resolved {A} a.
Arguments Rejected {A} e.
Arguments Unsettled {A}.

(** The surroundings of one call: what the relay, the key service and
    the clock answer. *)
Record World : Type := {
  w_list : list Filter -> list Event;
  w_get : Filter -> option Event;
  w_publish : Event -> PubAck;
  w_url : string;
  w_privkey : string;
  w_pubkey : string;
  w_now : Z
}.

Definition answer (w : World) {X : Type} (eff : Effect X) : X :=
  match eff in Effect T return T with
  | relay_list filters => w_list w filters
  | relay_get filter => w_get w filter
  | relay_publish e => w_publish w e
  | relay_url => w_url w
  | getPrivKey => w_privkey w
  | getPubKey => w_pubkey w
  | Date_now => w_now w
  | console_log _ => tt
  end.

Inductive Call : Type :=
| Called {X : Type} (eff : Effect X).

(** The outcome of a program in a world, and the calls it made, in
    order. *)
Fixpoint run {A : Type} (w : World) (p : Prog A) : Outcome A * list Call :=
  match p with
  | Return a => (Resolved a, [])
  | Throw e => (Rejected e, [])
  | Forever => (Unsettled, [])
  | Perform eff k =>
      let r := run w (k (answer w eff)) in
      (r.1, Called eff :: r.2)
  end.

Definition outcome {A : Type} (w : World) (p : Prog A) : Outcome A := (run w p).1.
Definition calls {A : Type} (w : World) (p : Prog A) : list Call := (run w p).2.

Definition is_publish (c : Call) : bool :=
  match c with
  | Called (relay_publish _) => true
  | _ => false
  end.

(** How a call of an operation that is not [async] and returns a
    promise ends for its caller: with an exception, thrown before any
    promise exists; with a promise, in the state given; or not at
    all, which no operation of the service does. *)
Inductive Started (A : Type) : Type :=
| Threw (e : JsError)
| Promised (o : Outcome A)
| Stuck.
Arguments Threw {A} e.
Arguments Promised {A} o.
Arguments Stuck {A}.

(** A call of such an operation, and the calls it made, in order.
    The body runs to its [return]; the promise it returns is a
    program of its own, whose executor runs within the call. *)
Fixpoint start {A : Type} (w : World) (p : Prog (Prog A)) : Started A * list Call :=
  match p with
  | Return promise =>
      let r := run w promise in
      (Promised r.1, r.2)
  | Throw e => (Threw e, [])
  | Forever => (Stuck, [])
  | Perform eff k =>
      let r := start w (k (answer w eff)) in
      (r.1, Called eff :: r.2)
  end.

(** ** The service *)

(** [Math.round(Date.now() / 1000)]: the quotient is rounded to the
    nearest integer, a half upwards. *)
Definition unix_seconds (now : Z) : Z := (now + 500) / 1000.

(** [getTag] at the type the service declares for it: the second
    element of the first tag whose first element is [tagName];
    [None] is [undefined]. *)
Definition getTag (tags : list (list string)) (tagName : string) : option string :=
  match List.find (fun t => match t with
                            | t0 :: _ => t0 =? tagName
                            | [] => false
                            end) tags with
  | Some tag => nth_error tag 1
  | None => None
  end.

(** [tags.find((t) => t[0] === tagName)] on a value of any shape: the
    callback reads [t[0]] of each element in turn and throws on a
    [null] element that comes before a match. *)
Fixpoint find_tag (elems : list jsval) (tagName : string) : result (option jsval) :=
  match elems with
  | [] => Ok None
  | t :: rest =>
      t0 ← get_index t 0;
      if strict_equal_string t0 tagName then Ok (Some t) else find_tag rest tagName
  end.

(** [getTag] as it runs on [zapRequest.tags], which [JSON.parse]
    produced: only an array has a [find] to call. *)
Definition getTag_any (tags : jsval) (tagName : string) : result jsval :=
  match tags with
  | JArr elems =>
      found ← find_tag elems tagName;
      match found with
      | Some tag => get_index tag 1
      | None => Ok JUndefined
      end
  | _ => Thrown TypeError
  end.

(** The value [string[][]] tags have at run time. *)
Definition tags_value (tags : list (list string)) : jsval :=
  JArr (map (fun t => JArr (map JStr t)) tags).

Definition optional_string_value (o : option string) : jsval :=
  match o with
  | Some s => JStr s
  | None => JUndefined
  end.

(** [if (s)] for [s : string | undefined]. *)
Definition present (o : option string) : bool :=
  match o with
  | Some s => negb (s =? "")
  | None => false
  end.

Inductive VoteType : Type := up | down.

Record Question : Type := {
  q_id : string;
  q_pubkey : string;
  q_title : jsval;
  q_message : jsval
}.

(** [{...event, message: event.content, vote: 0}]. *)
Record Answer : Type := {
  a_event : Event;
  a_message : string;
  a_vote : Z
}.

Record Comment : Type := {
  c_id : string;
  c_pubkey : string;
  c_message : string
}.

(** What [getAnswer] returns: the value parsed from the content, an
    object or an array, with its [id] and [tags] properties set. *)
Record ParsedAnswer : Type := {
  pa_parsed : jsval;
  pa_id : string;
  pa_tags : list (list string)
}.

Section Service.
Context `{Runtime} `{Library}.

Definition sign (event : EventTemplate) : Prog Event :=
  key ← perform getPrivKey;
  lift (finishEvent event key).

Definition log (args : list LogArg) : Prog unit := perform (console_log args).

Definition publishEvent (signedEvent : Event) : Prog string :=
  pub ← perform (relay_publish signedEvent);
  match pub with
  | ack_ok =>
      log [log_text "event sucessfully published"];;
      log [log_event signedEvent];;
      Return (ev_id signedEvent)
  | ack_failed reason =>
      log [log_text "event failed"];;
      log [log_text reason];;
      Throw (Reason reason)
  | ack_none => Forever
  end.

Definition push_tag (event : EventTemplate) (tag : list string) : EventTemplate :=
  {| t_kind := t_kind event;
     t_created_at := t_created_at event;
     t_tags := t_tags event ++ [tag];
     t_content := t_content event |}.

(** Not [async]: what [finishEvent] throws is thrown at the caller,
    and the promise is the one [publishEvent] returns. *)
Definition createOrUpdateQuestion (name about picture : string)
    (questionId : option string) : Prog (Prog string) :=
  let content := JObj [("name", JStr name); ("about", JStr about);
                       ("picture", JStr picture)] in
  now ← perform Date_now;
  let event := {| t_kind := if present questionId then 41 else 40;
                  t_created_at := unix_seconds now;
                  t_tags := [["t"; ZAPSTACK_TAG]; ["subject"; name]];
                  t_content := JSON_stringify content |} in
  event ← (if present questionId then
             url ← perform relay_url;
             Return (push_tag event ["e"; default "" questionId; url])
           else Return event);
  signedEvent ← sign event;
  Return (publishEvent signedEvent).

Definition createAnswer (topicId message : string) : Prog string :=
  now ← perform Date_now;
  url ← perform relay_url;
  signedEvent ← sign {| t_kind := 42;
                        t_created_at := unix_seconds now;
                        t_tags := [["t"; ZAPSTACK_TAG]; ["e"; topicId; url; "root"]];
                        t_content := message |};
  publishEvent signedEvent.

Definition createComment (questionId message parentId : string) : Prog string :=
  now ← perform Date_now;
  url ← perform relay_url;
  signedEvent ← sign {| t_kind := 42;
                        t_created_at := unix_seconds now;
                        t_tags := [["t"; ZAPSTACK_TAG]; ["e"; questionId; url; "reply"];
                                   ["p"; parentId]];
                        t_content := message |};
  publishEvent signedEvent.

Definition vote (answerId answerPubKey : string) (type : VoteType) : Prog string :=
  now ← perform Date_now;
  signedEvent ← sign {| t_kind := 7;
                        t_created_at := unix_seconds now;
                        t_tags := [["t"; ZAPSTACK_TAG]; ["e"; answerId];
                                   ["p"; answerPubKey]];
                        t_content := match type with up => "+" | down => "-" end |};
  publishEvent signedEvent.

Definition getZapRequest (answerId receiverPubKey : string) (amount : number) : Prog string :=
  now ← perform Date_now;
  url ← perform relay_url;
  finishedEvent ← sign {| t_kind := 9734;
                          t_created_at := unix_seconds now;
                          t_tags := [["e"; answerId]; ["p"; receiverPubKey];
                                     ["amount"; Number_toString amount];
                                     ["relays"; url]];
                          t_content := "" |};
  let eventString := JSON_stringify_event finishedEvent in
  Return (encodeURIComponent eventString).

(** *** Vote tally *)

(** The body of the first [forEach] of [getVoteResult]:
    [latestVotes] maps an author to one of the author's events.  The
    keys are public keys, 64 hexadecimal digits: none of them is a
    property that the object literal inherits, so a key that was not
    assigned reads as [undefined]. *)
Definition recordVote (latestVotes : gmap string Event) (e : Event) : gmap string Event :=
  if (content e =? "+") || (content e =? "-") then
    match latestVotes !! pubkey e with
    | None => <[pubkey e := e]> latestVotes
    | Some existingVote =>
        if (created_at existingVote <? created_at e)%Z
        then <[pubkey e := e]> latestVotes
        else latestVotes
    end
  else latestVotes.

Definition latestVotes (events : list Event) : gmap string Event :=
  fold_left recordVote events ∅.

(** The body of the second [forEach]. *)
Definition countVote (e : Event) (result : Z) : Z :=
  if content e =? "+" then result + 1
  else if content e =? "-" then result - 1
  else result.

(** [Object.values(latestVotes).forEach(...)]: one step per author,
    in an order that the sum does not depend on. *)
Definition voteResult (events : list Event) : Z :=
  map_fold (fun _ e result => countVote e result) 0 (latestVotes events).

Definition voteFilter (answerId : string) : Filter :=
  {| kinds := Some [7]; ids := None; authors := None;
     f_t := Some [ZAPSTACK_TAG]; f_e := Some [answerId]; f_p := None;
     limit := None |}.

Definition getVoteResult (answerId : string) : Prog Z :=
  events ← perform (relay_list [voteFilter answerId]);
  Return (voteResult events).

(** *** Payment total *)

Definition parse (text : string) : result jsval :=
  match JSON_parse text with
  | Some v => Ok v
  | None => Thrown SyntaxError
  end.

(** The callback of [flatMap] in [getZaps]. *)
Definition zapAmount (e : Event) : result number :=
  let desc := getTag (tags e) "description" in
  if present desc then
    zapRequest ← parse (default "" desc);
    zapTags ← get_member zapRequest "tags";
    amount ← getTag_any zapTags "amount";
    if truthy amount then
      n ← ToNumber amount;
      Ok (number_div n (number_of_Z 1000))
    else Ok (number_of_Z 0)
  else Ok (number_of_Z 0).

(** [.reduce((accumulator, currentValue) => accumulator + currentValue, 0)] *)
Definition sum_numbers (values : list number) : number :=
  fold_left number_add values (number_of_Z 0).

Definition zapFilter (answerId : string) : Filter :=
  {| kinds := Some [9735]; ids := None; authors := None;
     f_t := None; f_e := Some [answerId]; f_p := None; limit := None |}.

Definition getZaps (answerId : string) : Prog number :=
  events ← perform (relay_list [zapFilter answerId]);
  amounts ← lift (mapM zapAmount events);
  Return (sum_numbers amounts).

(** *** Lists *)

Definition question_of (event : Event) : result Question :=
  title ← (parsed ← parse (content event); get_member parsed "name");
  message ← (parsed ← parse (content event); get_member parsed "about");
  Ok {| q_id := ev_id event; q_pubkey := pubkey event;
        q_title := title; q_message := message |}.

Definition listQuestions : Prog (list Question) :=
  events ← perform (relay_list [{| kinds := Some [40]; ids := None; authors := None;
                                   f_t := Some [ZAPSTACK_TAG]; f_e := None; f_p := None;
                                   limit := None |}]);
  lift (mapM question_of events).

Definition answerFilter (topicId : string) : Filter :=
  {| kinds := Some [42]; ids := None; authors := None;
     f_t := Some [ZAPSTACK_TAG]; f_e := Some [topicId]; f_p := None;
     limit := None |}.

(** [event.tags.some((subArr) => subArr[0] === 'p')] *)
Definition has_p_tag (event : Event) : bool :=
  existsb (fun subArr => match subArr with
                         | s0 :: _ => s0 =? "p"
                         | [] => false
                         end) (tags event).

(** The callback of [flatMap] in [listAnswers]. *)
Definition answerPosts (event : Event) : list Answer :=
  let posts := [] in
  if negb (has_p_tag event) then
    let post := {| a_event := event; a_message := content event; a_vote := 0 |} in
    posts ++ [post]
  else posts.

Definition listAnswers (topicId : string) : Prog (list Answer) :=
  events ← perform (relay_list [answerFilter topicId]);
  Return (flat_map answerPosts events).

Definition listComments (postId : string) : Prog (list Comment) :=
  events ← perform (relay_list [{| kinds := Some [42]; ids := None; authors := None;
                                   f_t := Some [ZAPSTACK_TAG]; f_e := None;
                                   f_p := Some [postId]; limit := None |}]);
  Return (map (fun event => {| c_id := ev_id event; c_pubkey := pubkey event;
                               c_message := content event |}) events).

(** *** Single events *)

Definition questionFilter (questionId : string) : Filter :=
  {| kinds := Some [40]; ids := Some [questionId]; authors := None;
     f_t := None; f_e := None; f_p := None; limit := None |}.

Definition getQuestion (questionId : string) : Prog Question :=
  event ← perform (relay_get (questionFilter questionId));
  match event with
  | None => Throw (Error ("Question with id " ++ questionId ++ " not found"))
  | Some event => lift (question_of event)
  end.

(** The promise of [deleteEvents] is that of an [async] function
    whose body registers two callbacks and ends: it resolves whatever
    the relay answers.  The lines the callbacks print are listed with
    the calls of the run. *)
Definition deleteEvents (eventId : string) : Prog unit :=
  now ← perform Date_now;
  signedEvent ← sign {| t_kind := 5;
                        t_created_at := unix_seconds now;
                        t_tags := [["t"; ZAPSTACK_TAG]; ["e"; eventId]];
                        t_content := "" |};
  pub ← perform (relay_publish signedEvent);
  match pub with
  | ack_ok => log [log_text "deletion event sucessfully submitted"]
  | ack_failed reason =>
      log [log_text "deletion event failed"];;
      log [log_text reason]
  | ack_none => Return tt
  end;;
  Return tt.

Definition answerIdFilter (answerId : string) : Filter :=
  {| kinds := Some [42]; ids := Some [answerId]; authors := None;
     f_t := None; f_e := None; f_p := None; limit := None |}.

(** [answer.id = ...] on the parsed value: setting a property of
    [null] throws, and so does, in the strict mode of a module,
    setting one on a primitive. *)
Definition set_id_and_tags (answer : jsval) (event : Event) : result ParsedAnswer :=
  match answer with
  | JObj _ | JArr _ =>
      Ok {| pa_parsed := answer; pa_id := ev_id event; pa_tags := tags event |}
  | _ => Thrown TypeError
  end.

Definition getAnswer (answerId : string) : Prog ParsedAnswer :=
  event ← perform (relay_get (answerIdFilter answerId));
  match event with
  | None => Throw (Error ("Answer with id " ++ answerId ++ " not found"))
  | Some event =>
      lift (answer ← parse (content event); set_id_and_tags answer event)
  end.

Definition profileFilter (pubkey : string) : Filter :=
  {| kinds := Some [0]; ids := None; authors := Some [pubkey];
     f_t := None; f_e := None; f_p := None; limit := Some 1 |}.

Definition getProfile (pubkey : string) : Prog jsval :=
  event ← perform (relay_get (profileFilter pubkey));
  match event with
  | None => Throw (Error ("Profile for " ++ pubkey ++ " not found"))
  | Some event => lift (parse (content event))
  end.

Definition updateProfile (profile : jsval) : Prog string :=
  now ← perform Date_now;
  signedEvent ← sign {| t_kind := 0;
                        t_created_at := unix_seconds now;
                        t_tags := [["t"; ZAPSTACK_TAG]];
                        t_content := JSON_stringify profile |};
  publishEvent signedEvent.
End Service.

(** ** Waiting for a payment receipt *)

(** What the [event] callback of [waitForZap] can do to the promise
    and to the subscription [sub] it closes over. *)
Inductive HandlerAction : Type :=
| do_log (args : list LogArg)
| do_resolve
| do_unsub.

(** The callback [sub.on('event', ...)] registers. *)
Definition onZapEvent (invoice : string) (event : Event) : list HandlerAction :=
  let bolt11Tag := getTag (tags event) "bolt11" in
  if present bolt11Tag && (default "" bolt11Tag =? invoice) then
    [do_log [log_text "we got the event we wanted:"; log_event event]; do_resolve]
  else [].

(** The promise [waitForZap] returns and the subscription it opened. *)
Record Wait : Type := {
  resolved : bool;
  subscribed : bool;
  console : list (list LogArg)
}.

Definition act (s : Wait) (a : HandlerAction) : Wait :=
  match a with
  | do_log args =>
      {| resolved := resolved s; subscribed := subscribed s;
         console := console s ++ [args] |}
  | do_resolve =>
      {| resolved := true; subscribed := subscribed s; console := console s |}
  | do_unsub =>
      {| resolved := resolved s; subscribed := false; console := console s |}
  end.

(** The relay hands a receipt to the callback as long as the
    subscription is open. *)
Definition deliver (invoice : string) (s : Wait) (event : Event) : Wait :=
  if subscribed s then fold_left act (onZapEvent invoice event) s else s.

(** [waitForZap(answerId, invoice)] after the relay has sent
    [receipts] on the subscription for [zapFilter answerId]. *)
Definition waitForZap (answerId invoice : string) (receipts : list Event) : Wait :=
  fold_left (deliver invoice) receipts
    {| resolved := false; subscribed := true; console := [] |}.

(** ** Connecting *)

Module Connection.

(** A relay object of nostr-tools and its socket. *)
Inductive Socket : Type := connecting | opened | closing | closed.

Record Relay : Type := {
  url : string;
  socket : Socket
}.

(** A call of [connect] that stands at one of its two [await]s. *)
Inductive Task : Type :=
| await_close (old : nat) (url : string)
| await_connect (new : nat)
| done.

(** The service: the relay objects [relayInit] has made so far (a
    relay is known by its position), the field [this.relay], the
    value of the [connected] subject, the number of profile lookups
    the [connect] callbacks have started, and the calls of [connect]
    in progress. *)
Record Service : Type := {
  relays : list Relay;
  relay : option nat;
  connected : bool;
  profile_lookups : nat;
  tasks : list Task
}.

Definition fresh : Service :=
  {| relays := []; relay := None; connected := false;
     profile_lookups := 0; tasks := [] |}.

Definition set_socket (r : nat) (f : Socket -> Socket) (s : Service) : Service :=
  {| relays := alter (fun x => {| url := url x; socket := f (socket x) |}) r (relays s);
     relay := relay s; connected := connected s;
     profile_lookups := profile_lookups s; tasks := tasks s |}.

Definition socket_of (r : nat) (s : Service) : option Socket :=
  socket <$> relays s !! r.

(** [this.relay.close()]: a socket that is open or opening starts
    to close. *)
Definition start_closing (k : Socket) : Socket :=
  match k with
  | connecting | opened => closing
  | closing => closing
  | closed => closed
  end.

Definition close (r : nat) (s : Service) : Service :=
  set_socket r start_closing s.

(** The second half of [connect]: [this.relay = relayInit(url)],
    the three callbacks, and [this.relay.connect()] up to its
    [await]. *)
Definition open_new (url : string) (s : Service) : Service * nat :=
  let new := length (relays s) in
  ({| relays := relays s ++ [{| url := url; socket := connecting |}];
      relay := Some new; connected := connected s;
      profile_lookups := profile_lookups s; tasks := tasks s |}, new).

Definition add_task (t : Task) (s : Service) : Service :=
  {| relays := relays s; relay := relay s; connected := connected s;
     profile_lookups := profile_lookups s; tasks := tasks s ++ [t] |}.

Definition set_task (i : nat) (t : Task) (s : Service) : Service :=
  {| relays := relays s; relay := relay s; connected := connected s;
     profile_lookups := profile_lookups s; tasks := <[i := t]> (tasks s) |}.

Definition set_connected (b : bool) (s : Service) : Service :=
  {| relays := relays s; relay := relay s; connected := b;
     profile_lookups := profile_lookups s; tasks := tasks s |}.

Definition lookup_profile (s : Service) : Service :=
  {| relays := relays s; relay := relay s; connected := connected s;
     profile_lookups := S (profile_lookups s); tasks := tasks s |}.

(** [connect(url)] from its call to its first [await]. *)
Definition connect (url : string) (s : Service) : Service :=
  match relay s with
  | Some old => add_task (await_close old url) (close old s)
  | None =>
      let (s', new) := open_new url s in
      add_task (await_connect new) s'
  end.

(** What can happen next: a call of [connect], a call in progress
    going on after its [await], or a socket event. *)
Inductive Step : Type :=
| call (url : string)
| resume (task : nat)
| socket_opens (r : nat)
| socket_closes (r : nat)
| socket_fails (r : nat).

(** One step; [None] when the step cannot happen in this state.  A
    call goes on after [await this.relay.close()] once the old socket
    is closed, and after [await this.relay.connect()] once the new one
    is open.  The [connect] callback starts a profile lookup and sets
    [connected]; the [disconnect] and [error] callbacks clear it. *)
Definition step (st : Step) (s : Service) : option Service :=
  match st with
  | call url => Some (connect url s)
  | resume i =>
      match tasks s !! i with
      | Some (await_close old url) =>
          match socket_of old s with
          | Some closed | None =>
              let (s', new) := open_new url s in
              Some (set_task i (await_connect new) s')
          | Some _ => None
          end
      | Some (await_connect new) =>
          match socket_of new s with
          | Some opened => Some (set_task i done s)
          | _ => None
          end
      | Some done | None => None
      end
  | socket_opens r =>
      match socket_of r s with
      | Some connecting =>
          Some (set_connected true (lookup_profile (set_socket r (fun _ => opened) s)))
      | _ => None
      end
  | socket_closes r =>
      match socket_of r s with
      | Some opened | Some closing =>
          Some (set_connected false (set_socket r (fun _ => closed) s))
      | _ => None
      end
  | socket_fails r =>
      match socket_of r s with
      | Some connecting =>
          Some (set_connected false (set_socket r (fun _ => closed) s))
      | _ => None
      end
  end.

Fixpoint steps (sts : list Step) (s : Service) : option Service :=
  match sts with
  | [] => Some s
  | st :: rest =>
      match step st s with
      | Some s' => steps rest s'
      | None => None
      end
  end.

(** The urls of the connections that are live. *)
Definition live (s : Service) : list string :=
  url <$> List.filter (fun x => match socket x with
                                | opened => true
                                | _ => false
                                end) (relays s).

(** A whole call of [connect] with nothing else in between: the
    old socket closes, the call goes on, the new socket opens, the
    call returns. *)
Definition connect_alone (url : string) (s : Service) : list Step :=
  let task := length (tasks s) in
  match relay s with
  | Some old =>
      let coda := [resume task; socket_opens (length (relays s)); resume task] in
      match socket_of old s with
      | Some closed | None => call url :: coda
      | _ => call url :: socket_closes old :: coda
      end
  | None => [call url; socket_opens (length (relays s)); resume task]
  end.

(** The states a run goes through. *)
Fixpoint visited (sts : list Step) (s : Service) : list Service :=
  s :: match sts with
       | [] => []
       | st :: rest =>
           match step st s with
           | Some s' => visited rest s'
           | None => []
           end
       end.

(** No call of [connect] is in progress, and no relay but
    [this.relay] has an open socket. *)
Definition settled (s : Service) : Prop :=
  Forall (fun t => t = done) (tasks s)
  ∧ ∀ i x, relays s !! i = Some x → socket x = opened → relay s = Some i.

(** The constructor connects to damus; once that connection is open,
    [connect] is called for two other relays, the second call before
    the first has got past its [await]. *)
Definition two_calls_at_once : list Step :=
  [call "wss://relay.damus.io"; socket_opens 0; resume 0;
   call "wss://a.example"; call "wss://b.example";
   socket_closes 0; resume 1; resume 2;
   socket_opens 1; socket_opens 2; resume 1; resume 2].

End Connection.

(** ** The words of the specification *)

(** A vote is an event whose content is [+] or [-]; it counts [+1] or
    [-1], anything else counts nothing. *)
Definition is_vote (e : Event) : bool := (content e =? "+") || (content e =? "-").

Definition score (e : Event) : Z :=
  if content e =? "+" then 1 else if content e =? "-" then -1 else 0.

Definition signed_sum (kept : list Event) : Z :=
  foldr (fun e acc => score e + acc) 0 kept.

(** [v] is an event of [events] that none of the same author is
    later than. *)
Definition latest_of (events : list Event) (v : Event) : Prop :=
  v ∈ events
  ∧ ∀ e, e ∈ events → pubkey e = pubkey v → (created_at e ≤ created_at v)%Z.

(** [kept] holds, for each distinct author of [events], one event of
    that author with the greatest [created_at], and nothing else. *)
Definition latest_per_author (events kept : list Event) : Prop :=
  NoDup (pubkey <$> kept)
  ∧ (∀ v, v ∈ kept → latest_of events v)
  ∧ (∀ e, e ∈ events → ∃ v, v ∈ kept ∧ pubkey v = pubkey e).

Definition by_others (author : string) (events : list Event) : list Event :=
  List.filter (fun e => negb (pubkey e =? author)) events.

(** The later of the vote kept so far and the next one; the first
    stays when the two have the same time. *)
Definition later (best : option Event) (e : Event) : option Event :=
  match best with
  | None => Some e
  | Some b => if (created_at b <? created_at e)%Z then Some e else Some b
  end.

Definition votes_by (author : string) (events : list Event) : list Event :=
  List.filter (fun e => is_vote e && (pubkey e =? author)) events.

(** A receipt matches when its first [bolt11] tag carries the
    invoice. *)
Definition matches (invoice : string) (event : Event) : bool :=
  match getTag (tags event) "bolt11" with
  | Some bolt11 => bolt11 =? invoice
  | None => false
  end.

(** A question none of whose fields is left undefined. *)
Definition populated (question : Question) : Prop :=
  q_title question ≠ JUndefined ∧ q_message question ≠ JUndefined.

(** The templates [deleteEvents] and [getZapRequest] sign. *)
Definition deletion (eventId : string) (now : Z) : EventTemplate :=
  {| t_kind := 5; t_created_at := unix_seconds now;
     t_tags := [["t"; ZAPSTACK_TAG]; ["e"; eventId]]; t_content := "" |}.

Definition zap_request `{Library} (answerId receiverPubKey : string) (amount : number)
    (url : string) (now : Z) : EventTemplate :=
  {| t_kind := 9734; t_created_at := unix_seconds now;
     t_tags := [["e"; answerId]; ["p"; receiverPubKey];
                ["amount"; Number_toString amount]; ["relays"; url]];
     t_content := "" |}.

(** ** Events and worlds of the examples *)

Definition vote_event (author text : string) (time : Z) : Event :=
  {| ev_id := ""; pubkey := author; created_at := time; kind := 7;
     tags := []; content := text; ev_sig := "" |}.

(** A relay that answers every [list] with [events], every [get]
    with [found] and every [publish] with [ack]. *)
Definition relay_with (events : list Event) (found : option Event) (ack : PubAck) : World :=
  {| w_list := fun _ => events; w_get := fun _ => found; w_publish := fun _ => ack;
     w_url := "wss://relay.damus.io"; w_privkey := "privkey"; w_pubkey := "pubkey";
     w_now := 1700000000000 |}.

Definition quoted (s : string) : string :=
  String (ascii_of_nat 34) s ++ String (ascii_of_nat 34) "".

(** The JSON text of a payment request with one amount tag. *)
Definition zap_request_text (amount : string) : string :=
  "{" ++ quoted "kind" ++ ":9734," ++ quoted "tags" ++ ":[[" ++ quoted "amount" ++ ","
  ++ quoted amount ++ "]]}".

Definition receipt (extra_tags : list (list string)) : Event :=
  {| ev_id := ""; pubkey := "wallet"; created_at := 1700000000; kind := 9735;
     tags := ["e"; "answer"] :: extra_tags; content := ""; ev_sig := "" |}.

(** A receipt for the invoice [lnbc1] of a request of [amount]. *)
Definition paid (amount : string) : Event :=
  receipt [["bolt11"; "lnbc1"]; ["description"; zap_request_text amount]].

Definition question_event (text : string) : Event :=
  {| ev_id := "q1"; pubkey := "author"; created_at := 1700000000; kind := 40;
     tags := [["t"; ZAPSTACK_TAG]]; content := text; ev_sig := "" |}.

Definition answer_event (id text : string) (extra_tags : list (list string)) : Event :=
  {| ev_id := id; pubkey := "author"; created_at := 1700000000; kind := 42;
     tags := [["t"; ZAPSTACK_TAG]; ["e"; "topic"; "wss://relay.damus.io"; "root"]]
             ++ extra_tags;
     content := text; ev_sig := "" |}.

(** ** A runtime to compute with *)

(** [JSON.parse] after ECMA-404 and [Number] after the numeric string
    grammar of ECMAScript, for texts in ASCII or UTF-8.  White space
    around a numeric string is ASCII white space only. *)
Module ReferenceRuntime.

Definition code (c : ascii) : Z := Z.of_N (N_of_ascii c).
Definition char (z : Z) : ascii := ascii_of_N (Z.to_N z).
Definition is_char (c : ascii) (s : string) : bool := String c "" =? s.
Definition quote : ascii := char 34.
Definition backslash : ascii := char 92.

Definition json_space (c : ascii) : bool :=
  let n := code c in (n =? 32)%Z || (n =? 9)%Z || (n =? 10)%Z || (n =? 13)%Z.

Fixpoint skip_spaces (cs : list ascii) : list ascii :=
  match cs with
  | c :: rest => if json_space c then skip_spaces rest else cs
  | [] => []
  end.

Definition digit (c : ascii) : option Z :=
  let n := code c in
  if (48 <=? n)%Z && (n <=? 57)%Z then Some (n - 48) else None.

Definition hex_digit (c : ascii) : option Z :=
  let n := code c in
  if (48 <=? n)%Z && (n <=? 57)%Z then Some (n - 48)
  else if (65 <=? n)%Z && (n <=? 70)%Z then Some (n - 55)
  else if (97 <=? n)%Z && (n <=? 102)%Z then Some (n - 87)
  else None.

(** A run of digits in base [base]: its value after [acc], how many
    there were, and what follows. *)
Fixpoint digits (base : Z) (read : ascii -> option Z) (acc count : Z) (cs : list ascii)
  : Z * Z * list ascii :=
  match cs with
  | c :: rest =>
      match read c with
      | Some d => if (d <? base)%Z then digits base read (acc * base + d) (count + 1) rest
                  else (acc, count, cs)
      | None => (acc, count, cs)
      end
  | [] => (acc, count, cs)
  end.

(** The binary64 value nearest to [m * 10 ^ e], ties to even, with
    the sign [neg]: the quotient is cut after more than 56 bits and a
    last bit records whether anything was cut. *)
Definition decimal (neg : bool) (m e : Z) : number :=
  if (m =? 0)%Z then S754_zero neg
  else if (400 <? e)%Z then S754_infinity neg
  else if (e + Z.log2 m / 3 + 1 <? -330)%Z then S754_zero neg
  else
    let sign z := if neg then (- z)%Z else z in
    if (0 <=? e)%Z then binary_normalize prec emax (sign (m * 10 ^ e)%Z) 0 false
    else
      let d := (10 ^ (- e))%Z in
      let k := Z.max 0 (Z.log2 d - Z.log2 m + 60) in
      let n := (m * 2 ^ k)%Z in
      let sticky := if (n mod d =? 0)%Z then 0%Z else 1%Z in
      binary_normalize prec emax (sign (2 * (n / d) + sticky)%Z) (- (k + 1)) false.

(** [. digits] and [e digits] after the integer part [int]. *)
Definition fraction_and_exponent (need_fraction_digit : bool) (neg : bool) (int : Z)
    (cs : list ascii) : option (number * list ascii) :=
  let '(m, fraction_digits, cs1, ok) :=
    match cs with
    | c :: rest =>
        if is_char c "." then
          let '(m, count, rest') := digits 10 digit int 0 rest in
          (m, count, rest', negb need_fraction_digit || (0 <? count)%Z)
        else (int, 0%Z, cs, true)
    | [] => (int, 0%Z, cs, true)
    end in
  if negb ok then None
  else
    match cs1 with
    | c :: rest =>
        if is_char c "e" || is_char c "E" then
          let '(negative, rest1) :=
            match rest with
            | s :: rest' => if is_char s "-" then (true, rest')
                            else if is_char s "+" then (false, rest') else (false, rest)
            | [] => (false, rest)
            end in
          let '(ex, count, rest2) := digits 10 digit 0 0 rest1 in
          if (count =? 0)%Z then None
          else Some (decimal neg m ((if negative then - ex else ex) - fraction_digits), rest2)
        else Some (decimal neg m (- fraction_digits), cs1)
    | [] => Some (decimal neg m (- fraction_digits), cs1)
    end.

(** A JSON number: [-]? int frac? exp?, with no leading zero. *)
Definition json_number (cs : list ascii) : option (number * list ascii) :=
  let '(neg, cs0) :=
    match cs with
    | c :: rest => if is_char c "-" then (true, rest) else (false, cs)
    | [] => (false, cs)
    end in
  match cs0 with
  | c :: rest =>
      if is_char c "0" then fraction_and_exponent true neg 0 rest
      else
        let '(int, count, rest') := digits 10 digit 0 0 cs0 in
        if (count =? 0)%Z then None else fraction_and_exponent true neg int rest'
  | [] => None
  end.

(** UTF-8 for a code point (a lone surrogate is written like any
    other three-byte code point). *)
Definition utf8 (cp : Z) : list ascii :=
  if (cp <? 128)%Z then [char cp]
  else if (cp <? 2048)%Z then [char (192 + cp / 64); char (128 + cp mod 64)]
  else if (cp <? 65536)%Z then
    [char (224 + cp / 4096); char (128 + cp / 64 mod 64); char (128 + cp mod 64)]
  else
    [char (240 + cp / 262144); char (128 + cp / 4096 mod 64);
     char (128 + cp / 64 mod 64); char (128 + cp mod 64)].

(** The four hex digits of [\uXXXX]. *)
Definition unicode_escape (cs : list ascii) : option (Z * list ascii) :=
  match cs with
  | a :: b :: c :: d :: rest =>
      a ← hex_digit a; b ← hex_digit b; c ← hex_digit c; d ← hex_digit d;
      Some (((a * 16 + b) * 16 + c) * 16 + d, rest)%Z
  | _ => None
  end.

(** The code point of a high surrogate [hi] and the [\uXXXX] of a
    low surrogate after it, when there is one. *)
Definition low_surrogate (hi : Z) (after : list ascii) : option (Z * list ascii) :=
  if (55296 <=? hi)%Z && (hi <=? 56319)%Z then
    match after with
    | b :: u :: after' =>
        if Ascii.eqb b backslash && is_char u "u" then
          '(lo, after'') ← unicode_escape after';
          if (56320 <=? lo)%Z && (lo <=? 57343)%Z
          then Some ((65536 + (hi - 55296) * 1024 + (lo - 56320))%Z, after'')
          else None
        else None
    | _ => None
    end
  else None.

(** The characters of a JSON string after its opening quote, up to
    the closing one. *)
Fixpoint json_string (fuel : nat) (cs : list ascii) : option (list ascii * list ascii) :=
  match fuel with
  | O => None
  | S fuel =>
      match cs with
      | [] => None
      | c :: rest =>
          if Ascii.eqb c quote then Some ([], rest)
          else if (code c <? 32)%Z then None
          else if Ascii.eqb c backslash then
            match rest with
            | [] => None
            | x :: rest' =>
                let plain (z : Z) : option (list ascii * list ascii) :=
                  '(s, tail) ← json_string fuel rest'; Some (char z :: s, tail) in
                if Ascii.eqb x quote then plain 34
                else if Ascii.eqb x backslash then plain 92
                else if is_char x "/" then plain 47
                else if is_char x "b" then plain 8
                else if is_char x "f" then plain 12
                else if is_char x "n" then plain 10
                else if is_char x "r" then plain 13
                else if is_char x "t" then plain 9
                else if is_char x "u" then
                  '(hi, after) ← unicode_escape rest';
                  let '(cp, after) := default (hi, after) (low_surrogate hi after) in
                  '(s, tail) ← json_string fuel after; Some ((utf8 cp ++ s)%list, tail)
                else None
            end
          else '(s, tail) ← json_string fuel rest; Some (c :: s, tail)
      end
  end.

Definition keyword (word : string) (v : jsval) (cs : list ascii)
  : option (jsval * list ascii) :=
  let w := list_ascii_of_string word in
  if String.eqb (string_of_list_ascii (take (length w) cs)) word
  then Some (v, drop (length w) cs) else None.

(** A JSON value, the elements of an array after [[] and the members
    of an object after [{]. *)
Fixpoint json_value (fuel : nat) (cs : list ascii) : option (jsval * list ascii) :=
  match fuel with
  | O => None
  | S fuel =>
      match skip_spaces cs with
      | [] => None
      | c :: rest =>
          if is_char c "{" then
            match skip_spaces rest with
            | c' :: rest' =>
                if is_char c' "}" then Some (JObj [], rest')
                else '(members, tail) ← json_members fuel rest; Some (JObj members, tail)
            | [] => None
            end
          else if is_char c "[" then
            match skip_spaces rest with
            | c' :: rest' =>
                if is_char c' "]" then Some (JArr [], rest')
                else '(elems, tail) ← json_elements fuel rest; Some (JArr elems, tail)
            | [] => None
            end
          else if Ascii.eqb c quote then
            '(s, tail) ← json_string (S (length rest)) rest;
            Some (JStr (string_of_list_ascii s), tail)
          else if is_char c "t" then keyword "true" (JBool true) (c :: rest)
          else if is_char c "f" then keyword "false" (JBool false) (c :: rest)
          else if is_char c "n" then keyword "null" JNull (c :: rest)
          else '(n, tail) ← json_number (c :: rest); Some (JNum n, tail)
      end
  end
with json_elements (fuel : nat) (cs : list ascii) : option (list jsval * list ascii) :=
  match fuel with
  | O => None
  | S fuel =>
      '(v, tail) ← json_value fuel cs;
      match skip_spaces tail with
      | c :: rest =>
          if is_char c "," then
            '(vs, tail') ← json_elements fuel rest; Some (v :: vs, tail')
          else if is_char c "]" then Some ([v], rest)
          else None
      | [] => None
      end
  end
with json_members (fuel : nat) (cs : list ascii)
  : option (list (string * jsval) * list ascii) :=
  match fuel with
  | O => None
  | S fuel =>
      match skip_spaces cs with
      | q :: rest =>
          if Ascii.eqb q quote then
            '(k, tail) ← json_string (S (length rest)) rest;
            match skip_spaces tail with
            | c :: rest' =>
                if is_char c ":" then
                  '(v, tail') ← json_value fuel rest';
                  let member := (string_of_list_ascii k, v) in
                  match skip_spaces tail' with
                  | c' :: rest'' =>
                      if is_char c' "," then
                        '(ms, tail'') ← json_members fuel rest''; Some (member :: ms, tail'')
                      else if is_char c' "}" then Some ([member], rest'')
                      else None
                  | [] => None
                  end
                else None
            | [] => None
            end
          else None
      | [] => None
      end
  end.

(** [JSON.parse(text)]: one value and nothing but white space after
    it. *)
Definition parse_json (text : string) : option jsval :=
  let cs := list_ascii_of_string text in
  '(v, tail) ← json_value (2 * length cs + 2) cs;
  match skip_spaces tail with
  | [] => Some v
  | _ => None
  end.

(** White space of a numeric string. *)
Definition string_space (c : ascii) : bool :=
  let n := code c in ((9 <=? n)%Z && (n <=? 13)%Z) || (n =? 32)%Z.

Fixpoint skip_string_spaces (cs : list ascii) : list ascii :=
  match cs with
  | c :: rest => if string_space c then skip_string_spaces rest else cs
  | [] => []
  end.

Definition trim (cs : list ascii) : list ascii :=
  rev (skip_string_spaces (rev (skip_string_spaces cs))).

Definition whole_digits (base : Z) (cs : list ascii) : number :=
  match digits base hex_digit 0 0 cs with
  | (n, count, []) => if (count =? 0)%Z then S754_nan else number_of_Z n
  | _ => S754_nan
  end.

(** [Number(text)]. *)
Definition string_to_number (text : string) : number :=
  match trim (list_ascii_of_string text) with
  | [] => S754_zero false
  | (c :: rest) as cs =>
      let radix :=
        match rest with
        | x :: rest' =>
            if negb (is_char c "0") then None
            else if is_char x "x" || is_char x "X" then Some (16, rest')
            else if is_char x "o" || is_char x "O" then Some (8, rest')
            else if is_char x "b" || is_char x "B" then Some (2, rest')
            else None
        | [] => None
        end in
      match radix with
      | Some (base, body) => whole_digits base body
      | None =>
          let '(neg, cs0) :=
            if is_char c "-" then (true, rest)
            else if is_char c "+" then (false, rest) else (false, cs) in
          if String.eqb (string_of_list_ascii cs0) "Infinity" then S754_infinity neg
          else
            let '(int, count, after) := digits 10 digit 0 0 cs0 in
            let dot := match after with
                       | d :: _ => is_char d "."
                       | [] => false
                       end in
            if (count =? 0)%Z && negb dot then S754_nan
            else
              match fraction_and_exponent (count =? 0)%Z neg int after with
              | Some (n, []) => n
              | _ => S754_nan
              end
      end
  end.

(** [Number(String(v))] for [v] an element of an array that is being
    joined, or an array or object itself.  A number survives the way
    through its spelling, but for the sign of zero; two elements or
    more are joined with a comma, which no numeric string has; an
    object spells as [[object Object]] unless a member of its own
    hides [toString], which then is not a function. *)
Fixpoint number_of_spelling (v : jsval) : result number :=
  match v with
  | JUndefined | JNull => Ok (S754_zero false)
  | JBool _ => Ok S754_nan
  | JNum (S754_zero _) => Ok (S754_zero false)
  | JNum n => Ok n
  | JStr s => Ok (string_to_number s)
  | JArr [] => Ok (S754_zero false)
  | JArr [e] => number_of_spelling e
  | JArr elems =>
      (fix spell_all (l : list jsval) : result number :=
         match l with
         | [] => Ok S754_nan
         | e :: l' => _ ← number_of_spelling e; spell_all l'
         end) elems
  | JObj members =>
      match own_property members "toString" with
      | Some _ => Thrown TypeError
      | None => Ok S754_nan
      end
  end.

Definition runtime : Runtime :=
  {| JSON_parse := parse_json;
     StringToNumber := string_to_number;
     ObjectToNumber := number_of_spelling |}.

End ReferenceRuntime.

(** ** The events the service signs *)

(** The template each publishing operation hands to [finishEvent],
    from its arguments, [this.relay.url] and [Date.now()]; those of a
    deletion and of a payment request are [deletion] and
    [zap_request] above. *)
Definition question_template `{Library} (name about picture : string)
    (questionId : option string) (url : string) (now : Z) : EventTemplate :=
  {| t_kind := if present questionId then 41 else 40;
     t_created_at := unix_seconds now;
     t_tags := ([["t"; ZAPSTACK_TAG]; ["subject"; name]]
                ++ (if present questionId then [["e"; default "" questionId; url]] else []))%list;
     t_content := JSON_stringify (JObj [("name", JStr name); ("about", JStr about);
                                        ("picture", JStr picture)]) |}.

Definition answer_template (topicId message url : string) (now : Z) : EventTemplate :=
  {| t_kind := 42; t_created_at := unix_seconds now;
     t_tags := [["t"; ZAPSTACK_TAG]; ["e"; topicId; url; "root"]];
     t_content := message |}.

Definition comment_template (questionId message parentId url : string) (now : Z)
  : EventTemplate :=
  {| t_kind := 42; t_created_at := unix_seconds now;
     t_tags := [["t"; ZAPSTACK_TAG]; ["e"; questionId; url; "reply"]; ["p"; parentId]];
     t_content := message |}.

Definition vote_template (answerId answerPubKey : string) (type : VoteType) (now : Z)
  : EventTemplate :=
  {| t_kind := 7; t_created_at := unix_seconds now;
     t_tags := [["t"; ZAPSTACK_TAG]; ["e"; answerId]; ["p"; answerPubKey]];
     t_content := match type with up => "+" | down => "-" end |}.

Definition profile_template `{Library} (profile : jsval) (now : Z) : EventTemplate :=
  {| t_kind := 0; t_created_at := unix_seconds now;
     t_tags := [["t"; ZAPSTACK_TAG]];
     t_content := JSON_stringify profile |}.

(** What a publishing operation comes to for its caller, given the
    template it signs. *)
Definition published `{Library} (w : World) (template : EventTemplate) : Outcome string :=
  match finishEvent template (w_privkey w) with
  | Thrown e => Rejected e
  | Ok signedEvent =>
      match w_publish w signedEvent with
      | ack_ok => Resolved (ev_id signedEvent)
      | ack_failed reason => Rejected (Reason reason)
      | ack_none => Unsettled
      end
  end.

(** The same for an operation that is not [async]: the error of
    [finishEvent] is thrown, not a rejection. *)
Definition started_publishing `{Library} (w : World) (template : EventTemplate)
  : Started string :=
  match finishEvent template (w_privkey w) with
  | Thrown e => Threw e
  | Ok signedEvent =>
      Promised match w_publish w signedEvent with
               | ack_ok => Resolved (ev_id signedEvent)
               | ack_failed reason => Rejected (Reason reason)
               | ack_none => Unsettled
               end
  end.

(** The calls of [this.relay.publish] it makes. *)
Definition publications `{Library} (w : World) (template : EventTemplate) : list Call :=
  match finishEvent template (w_privkey w) with
  | Thrown _ => []
  | Ok signedEvent => [Called (relay_publish signedEvent)]
  end.

(** No two valid votes of one author carry the same time without
    being the same event. *)
Definition no_ties (events : list Event) : Prop :=
  ∀ e1 e2, e1 ∈ events → e2 ∈ events → is_vote e1 = true → is_vote e2 = true →
           pubkey e1 = pubkey e2 → created_at e1 = created_at e2 → e1 = e2.

(** ** Connecting in turn *)

(** [connect] called for each of [urls], every call run to its end
    before the next is made. *)
Module Sequential.
Import Connection.

Fixpoint connect_in_turn (urls : list string) (s : Service) : list Step :=
  match urls with
  | [] => []
  | url :: rest =>
      let sts := connect_alone url s in
      (sts ++ match steps sts s with
              | Some s' => connect_in_turn rest s'
              | None => []
              end)%list
  end.

End Sequential.

(** ** A library to compute with *)

(** [Number.prototype.toString], [JSON.stringify] and
    [encodeURIComponent] after ECMAScript, for texts in ASCII or
    UTF-8, and a signer that copies the template without hashing or
    signing it. *)
Module ReferenceLibrary.
Import ReferenceRuntime.

(** The decimal exponent [n] of a positive [num / den]: the least
    with [num / den < 10 ^ n], searched upwards and downwards from an
    estimate. *)
Definition below_power (num den n : Z) : bool :=
  if (0 <=? n)%Z then (num <? den * 10 ^ n)%Z else (num * 10 ^ (- n) <? den)%Z.

Fixpoint exponent_up (fuel : nat) (num den n : Z) : Z :=
  match fuel with
  | O => n
  | S fuel => if below_power num den n then n else exponent_up fuel num den (n + 1)
  end.

Fixpoint exponent_down (fuel : nat) (num den n : Z) : Z :=
  match fuel with
  | O => n
  | S fuel => if below_power num den (n - 1) then exponent_down fuel num den (n - 1) else n
  end.

Definition decimal_exponent (num den : Z) : Z :=
  let estimate := (Z.log2 num - Z.log2 den) * 3 / 10 in
  exponent_down 8 num den (exponent_up 8 num den estimate).

(** The digits [s] and the exponent [n] of [Number::toString] for the
    positive [x = num / den]: the fewest digits [k] such that
    [s * 10 ^ (n - k)] reads back as [x], and of two such [s] the
    nearer to [x]. *)
Fixpoint shortest (fuel : nat) (x : number) (num den n k : Z) : Z * Z * Z :=
  match fuel with
  | O => (0, n, k)
  | S fuel =>
      let scaled_num := if (0 <=? k - n)%Z then (num * 10 ^ (k - n))%Z else num in
      let scaled_den := if (0 <=? k - n)%Z then den else (den * 10 ^ (n - k))%Z in
      let lo := (scaled_num / scaled_den)%Z in
      let r := (scaled_num mod scaled_den)%Z in
      let reads c := (10 ^ (k - 1) <=? c)%Z
                     && match x, decimal false c (n - k) with
                        | S754_finite _ m e, S754_finite _ m' e' => (m =? m')%positive && (e =? e')%Z
                        | _, _ => false
                        end in
      let low_nearer := (2 * r <? scaled_den)%Z || ((2 * r =? scaled_den)%Z && Z.even lo) in
      let pick c := if (c =? 10 ^ k)%Z then (10 ^ (k - 1), n + 1, k)%Z else (c, n, k) in
      if reads lo && (low_nearer || negb (reads (lo + 1)%Z)) then pick lo
      else if reads (lo + 1)%Z then pick (lo + 1)%Z
      else shortest fuel x num den n (k + 1)
  end.

Definition zeros (n : Z) : string := string_of_list_ascii (replicate (Z.to_nat n) "0"%char).

Definition layout (s n k : Z) : string :=
  let ds := pretty s in
  if (k <=? n)%Z && (n <=? 21)%Z then ds ++ zeros (n - k)
  else if (0 <? n)%Z && (n <=? 21)%Z then
    substring 0 (Z.to_nat n) ds ++ "." ++ substring (Z.to_nat n) (Z.to_nat (k - n)) ds
  else if (-6 <? n)%Z && (n <=? 0)%Z then "0." ++ zeros (- n) ++ ds
  else
    let e := (n - 1)%Z in
    let mantissa := if (k =? 1)%Z then ds
                    else substring 0 1 ds ++ "." ++ substring 1 (Z.to_nat (k - 1)) ds in
    mantissa ++ "e" ++ (if (0 <=? e)%Z then "+" else "-") ++ pretty (Z.abs e).

(** [x.toString()]. *)
Definition number_to_string (x : number) : string :=
  match x with
  | S754_nan => "NaN"
  | S754_zero _ => "0"
  | S754_infinity neg => if neg then "-Infinity" else "Infinity"
  | S754_finite neg m e =>
      let num := if (0 <=? e)%Z then (Zpos m * 2 ^ e)%Z else Zpos m in
      let den := if (0 <=? e)%Z then 1%Z else (2 ^ (- e))%Z in
      let '(s, n, k) := shortest 17 x num den (decimal_exponent num den) 1 in
      (if neg then "-" else "") ++ layout s n k
  end.

Definition hex_char (d : Z) : ascii :=
  char (if (d <? 10)%Z then 48 + d else 87 + d).

(** [QuoteJSONString]. *)
Fixpoint escaped (cs : list ascii) : list ascii :=
  match cs with
  | [] => []
  | c :: rest =>
      let n := code c in
      (if (n =? 34)%Z then [backslash; quote]
       else if (n =? 92)%Z then [backslash; backslash]
       else if (n =? 8)%Z then [backslash; "b"%char]
       else if (n =? 12)%Z then [backslash; "f"%char]
       else if (n =? 10)%Z then [backslash; "n"%char]
       else if (n =? 13)%Z then [backslash; "r"%char]
       else if (n =? 9)%Z then [backslash; "t"%char]
       else if (n <? 32)%Z then
         [backslash; "u"%char; "0"%char; "0"%char; hex_char (n / 16); hex_char (n mod 16)]
       else [c]) ++ escaped rest
  end.

Definition quote_json_string (s : string) : string :=
  string_of_list_ascii ([quote] ++ escaped (list_ascii_of_string s) ++ [quote]).

Definition joined (parts : list string) : string :=
  match parts with
  | [] => ""
  | p :: rest => fold_left (fun acc q => acc ++ "," ++ q) rest p
  end.

(** [JSON.stringify(v)] with no replacer and no indentation; [None]
    where it returns [undefined]. *)
Fixpoint stringify (v : jsval) : option string :=
  match v with
  | JUndefined => None
  | JNull => Some "null"
  | JBool b => Some (if b then "true" else "false")
  | JNum (S754_nan) | JNum (S754_infinity _) => Some "null"
  | JNum n => Some (number_to_string n)
  | JStr s => Some (quote_json_string s)
  | JArr elems =>
      Some ("[" ++ joined (map (fun e => default "null" (stringify e)) elems) ++ "]")
  | JObj members =>
      Some ("{" ++ joined (omap (fun '(k, e) =>
                                   text ← stringify e;
                                   Some (quote_json_string k ++ ":" ++ text)) members)
            ++ "}")
  end.

(** The properties of a signed event in the order [finishEvent] sets
    them: those of the template, then [pubkey], [id] and [sig]. *)
Definition event_value (e : Event) : jsval :=
  JObj [("kind", JNum (number_of_Z (kind e)));
        ("created_at", JNum (number_of_Z (created_at e)));
        ("tags", tags_value (tags e));
        ("content", JStr (content e));
        ("pubkey", JStr (pubkey e));
        ("id", JStr (ev_id e));
        ("sig", JStr (ev_sig e))].

Definition unreserved (c : ascii) : bool :=
  let n := code c in
  ((48 <=? n)%Z && (n <=? 57)%Z) || ((65 <=? n)%Z && (n <=? 90)%Z)
  || ((97 <=? n)%Z && (n <=? 122)%Z)
  || existsb (Z.eqb n) [45; 95; 46; 33; 126; 42; 39; 40; 41]%Z.

Definition upper_hex_char (d : Z) : ascii :=
  char (if (d <? 10)%Z then 48 + d else 55 + d).

(** [encodeURIComponent] of a well-formed text: every byte of its
    UTF-8 form but the unreserved ones is escaped. *)
Definition encode_uri_component (s : string) : string :=
  string_of_list_ascii
    (flat_map (fun c => if unreserved c then [c]
                        else ["%"%char; upper_hex_char (code c / 16);
                              upper_hex_char (code c mod 16)])
              (list_ascii_of_string s)).

(** A signer for the examples.  It keeps the four fields of the
    template, as [finishEvent] does, and throws on an empty key; what
    [finishEvent] computes, the public key, the hash and the
    signature, it only marks. *)
Definition unsigned (event : EventTemplate) (key : string) : result Event :=
  if key =? "" then Thrown (LibraryError "invalid private key")
  else Ok {| ev_id := "id"; pubkey := "pubkey of " ++ key;
             created_at := t_created_at event; kind := t_kind event;
             tags := t_tags event; content := t_content event; ev_sig := "sig" |}.

Definition library : Library :=
  {| finishEvent := unsigned;
     Number_toString := number_to_string;
     JSON_stringify := fun v => default "" (stringify v);
     JSON_stringify_event := fun e => default "" (stringify (event_value e));
     encodeURIComponent := encode_uri_component |}.

End ReferenceLibrary.

(** ** Texts and events of the examples, from the library *)

Definition question_content : string :=
  JSON_stringify (Library := ReferenceLibrary.library)
    (JObj [("name", JStr "Q1"); ("about", JStr "body"); ("picture", JStr "")]).

Definition profile_value : jsval :=
  JObj [("name", JStr "ada"); ("about", JStr "likes proofs"); ("age", JNum (number_of_Z 36))].

Definition signed_zap_request : Event :=
  match finishEvent (Library := ReferenceLibrary.library)
          (zap_request (H := ReferenceLibrary.library) "answer" "receiver"
                       (number_of_Z 21000) "wss://relay.damus.io" 1700000000000)
          "privkey" with
  | Ok e => e
  | Thrown _ => vote_event "" "" 0
  end.

(** * Properties *)

Local Open Scope list_scope.
Local Open Scope Z_scope.

(** ** The vote tally *)

Section VoteTally.

Lemma recordVote_lookup m e a :
  recordVote m e !! a =
  if is_vote e && (pubkey e =? a)%string then later (m !! a) e else m !! a.
Proof.
  unfold recordVote, is_vote.
  destruct ((content e =? "+") || (content e =? "-"))%string; simpl; [|done].
  destruct (String.eqb_spec (pubkey e) a) as [->|Hne].
  - destruct (m !! a) as [b|] eqn:Hb; simpl.
    + destruct (created_at b <? created_at e)%Z; by rewrite ?lookup_insert_eq.
    + by rewrite lookup_insert_eq.
  - destruct (m !! pubkey e) as [b|]; [destruct (created_at b <? created_at e)%Z|];
      by rewrite ?lookup_insert_ne.
Qed.

Lemma latestVotes_from_lookup events m a :
  fold_left recordVote events m !! a = fold_left later (votes_by a events) (m !! a).
Proof.
  revert m. induction events as [|e events IH]; intros m; simpl; [done|].
  rewrite IH, recordVote_lookup. unfold votes_by. simpl.
  by destruct (is_vote e && (pubkey e =? a)%string).
Qed.

Lemma latestVotes_lookup events a :
  latestVotes events !! a = fold_left later (votes_by a events) None.
Proof. unfold latestVotes. by rewrite latestVotes_from_lookup, lookup_empty. Qed.

Lemma later_fold_some l b : ∃ v, fold_left later l (Some b) = Some v
  ∧ (v = b ∨ v ∈ l) ∧ (created_at b ≤ created_at v)%Z
  ∧ ∀ e, e ∈ l → (created_at e ≤ created_at v)%Z.
Proof.
  revert b. induction l as [|e l IH]; intros b; simpl.
  - exists b. split_and!; [done|by left|lia|]. intros e He. by apply elem_of_nil in He.
  - destruct (Z.ltb_spec (created_at b) (created_at e)).
    + destruct (IH e) as (v & Hv & Hin & Hle & Hall). exists v.
      split_and!; [done| |lia|].
      * right. destruct Hin as [->|Hin]; [left|by right].
      * intros x [->|Hx]%elem_of_cons; auto.
    + destruct (IH b) as (v & Hv & Hin & Hle & Hall). exists v.
      split_and!; [done| |lia|].
      * destruct Hin as [->|Hin]; [by left|right; by right].
      * intros x [->|Hx]%elem_of_cons; [lia|auto].
Qed.

Lemma later_fold_none l :
  match l with
  | [] => fold_left later l None = None
  | _ => ∃ v, fold_left later l None = Some v ∧ v ∈ l
         ∧ ∀ e, e ∈ l → (created_at e ≤ created_at v)%Z
  end.
Proof.
  destruct l as [|b l]; simpl; [done|].
  destruct (later_fold_some l b) as (v & Hv & Hin & Hle & Hall).
  exists v. split_and!; [done| |].
  - destruct Hin as [->|Hin]; [left|by right].
  - intros x [->|Hx]%elem_of_cons; auto.
Qed.

Lemma elem_of_votes_by a events e :
  e ∈ votes_by a events ↔ e ∈ events ∧ is_vote e = true ∧ pubkey e = a.
Proof.
  unfold votes_by. rewrite !list_elem_of_In, filter_In, andb_true_iff.
  by rewrite String.eqb_eq.
Qed.

Lemma latestVotes_Some events a v :
  latestVotes events !! a = Some v →
  v ∈ events ∧ is_vote v = true ∧ pubkey v = a
  ∧ ∀ e, e ∈ events → is_vote e = true → pubkey e = a → (created_at e ≤ created_at v)%Z.
Proof.
  rewrite latestVotes_lookup. intros Hv.
  pose proof (later_fold_none (votes_by a events)) as Hl.
  destruct (votes_by a events) as [|b l] eqn:Hvotes; [congruence|].
  destruct Hl as (v' & Hv' & Hin & Hall). rewrite Hv in Hv'. injection Hv' as <-.
  rewrite <- Hvotes in Hin, Hall.
  apply elem_of_votes_by in Hin as (? & ? & ?). split_and!; [done..|].
  intros e ? ? ?. apply Hall, elem_of_votes_by. done.
Qed.

Lemma latestVotes_is_Some events a e :
  e ∈ events → is_vote e = true → pubkey e = a → is_Some (latestVotes events !! a).
Proof.
  intros He Hvote Ha. rewrite latestVotes_lookup.
  pose proof (later_fold_none (votes_by a events)) as Hl.
  destruct (votes_by a events) as [|b l] eqn:Hvotes.
  - assert (e ∈ votes_by a events) as Hin by by apply elem_of_votes_by.
    rewrite Hvotes in Hin. by apply elem_of_nil in Hin.
  - destruct Hl as (v & Hv & _). rewrite Hv. by eexists.
Qed.

Lemma countVote_score e result : countVote e result = result + score e.
Proof.
  unfold countVote, score.
  destruct (content e =? "+")%string; [lia|]. destruct (content e =? "-")%string; lia.
Qed.

Lemma voteResult_sum events :
  voteResult events = signed_sum (snd <$> map_to_list (latestVotes events)).
Proof.
  unfold voteResult. rewrite map_fold_foldr.
  induction (map_to_list (latestVotes events)) as [|[a v] l IH]; [done|].
  rewrite fmap_cons. unfold signed_sum in *. cbn [foldr uncurry snd].
  rewrite <- IH, countVote_score. lia.
Qed.

Lemma voteResult_delete events a v :
  latestVotes events !! a = Some v →
  voteResult events
  = map_fold (fun _ e result => countVote e result) 0 (delete a (latestVotes events)) + score v.
Proof.
  intros Hv. unfold voteResult.
  rewrite (map_fold_delete_L _ _ a v) by (done || intros; rewrite !countVote_score; lia).
  by rewrite countVote_score.
Qed.

Lemma votes_by_others a b events :
  votes_by b (by_others a events) = if (b =? a)%string then [] else votes_by b events.
Proof.
  unfold votes_by, by_others. induction events as [|e events IH]; simpl.
  - by destruct (b =? a)%string.
  - destruct (String.eqb_spec (pubkey e) a) as [->|Hne]; simpl.
    + rewrite IH. destruct (String.eqb_spec b a) as [->|Hne]; [done|].
      rewrite (proj2 (String.eqb_neq a b)) by done. by rewrite andb_false_r.
    + rewrite IH. destruct (String.eqb_spec b a) as [->|Hne']; [|done].
      rewrite (proj2 (String.eqb_neq (pubkey e) a)) by done. by rewrite andb_false_r.
Qed.

Lemma latestVotes_by_others a events :
  latestVotes (by_others a events) = delete a (latestVotes events).
Proof.
  apply map_eq. intros b. rewrite latestVotes_lookup, votes_by_others.
  destruct (String.eqb_spec b a) as [->|Hne].
  - by rewrite lookup_delete_eq.
  - by rewrite lookup_delete_ne, latestVotes_lookup.
Qed.

Lemma recordVote_not_vote m e : is_vote e = false → recordVote m e = m.
Proof. unfold recordVote, is_vote. by intros ->. Qed.

Lemma elem_of_filter_votes (events : list Event) e :
  e ∈ List.filter is_vote events ↔ e ∈ events ∧ is_vote e = true.
Proof. by rewrite !list_elem_of_In, filter_In. Qed.

Lemma latestVotes_kept events :
  latest_per_author (List.filter is_vote events) (snd <$> map_to_list (latestVotes events)).
Proof.
  assert (∀ v, v ∈ (map_to_list (latestVotes events)).*2 →
               latestVotes events !! pubkey v = Some v) as Hentry.
  { intros v [[a v'] [-> Hin]]%list_elem_of_fmap. simpl.
    apply elem_of_map_to_list in Hin.
    by destruct (latestVotes_Some _ _ _ Hin) as (_ & _ & -> & _). }
  split_and!.
  - replace (pubkey <$> (map_to_list (latestVotes events)).*2)
      with ((map_to_list (latestVotes events)).*1); [apply NoDup_fst_map_to_list|].
    rewrite <- list_fmap_compose. apply list_fmap_ext. intros i [a v] Hin. simpl.
    apply list_elem_of_lookup_2, elem_of_map_to_list in Hin.
    by destruct (latestVotes_Some _ _ _ Hin) as (_ & _ & -> & _).
  - intros v Hv. apply Hentry, latestVotes_Some in Hv as (Hin & Hvote & _ & Hmax).
    split; [by apply elem_of_filter_votes|].
    intros e [He Hvote']%elem_of_filter_votes Hsame. by apply Hmax.
  - intros e [He Hvote]%elem_of_filter_votes.
    destruct (latestVotes_is_Some events (pubkey e) e) as [v Hv]; [done..|].
    exists v. split.
    + apply list_elem_of_fmap. exists (pubkey e, v). split; [done|].
      by apply elem_of_map_to_list.
    + by apply latestVotes_Some in Hv as (_ & _ & -> & _).
Qed.

Lemma voteResult_skip before e after :
  is_vote e = false → voteResult (before ++ e :: after) = voteResult (before ++ after).
Proof.
  intros Hno. unfold voteResult, latestVotes.
  by rewrite !fold_left_app; simpl; rewrite recordVote_not_vote.
Qed.

Lemma vote_score e : is_vote e = true → score e = 1 ∨ score e = -1.
Proof.
  unfold is_vote, score. destruct (content e =? "+")%string; [by left|].
  destruct (content e =? "-")%string; [by right|done].
Qed.

Lemma voteResult_author events author v :
  latestVotes events !! author = Some v →
  voteResult events = voteResult (by_others author events) + score v.
Proof.
  intros Hv. rewrite (voteResult_delete _ _ _ Hv).
  unfold voteResult at 1. by rewrite latestVotes_by_others.
Qed.


Lemma filter_votes_all (events : list Event) :
  Forall (fun e => is_vote e = true) events → List.filter is_vote events = events.
Proof. induction 1 as [|e events He _ IH]; [done|]. simpl. by rewrite He, IH. Qed.

(** C1 (amended): for every list of kind-7 events the relay returns
    for a target, the tally is the signed sum ([+1] for [+], [-1] for
    [-]) over a selection that keeps, per distinct author, one event
    with the greatest [created_at] among that author's events whose
    content is [+] or [-]; when every event of the list has such a
    content this is the latest event of each author; and for the votes
    A:[+] at 1, A:[-] at 2, B:[+] at 1 the tally is 0. *)
Theorem getVoteResult_latest_vote_per_author :
  (∀ (w : World) (answerId : string),
     ∃ kept, latest_per_author (List.filter is_vote (w_list w [voteFilter answerId])) kept
             ∧ run w (getVoteResult answerId)
               = (Resolved (signed_sum kept), [Called (relay_list [voteFilter answerId])]))
  ∧ (∀ (w : World) (answerId : string),
       Forall (fun e => is_vote e = true) (w_list w [voteFilter answerId]) →
       ∃ kept, latest_per_author (w_list w [voteFilter answerId]) kept
               ∧ outcome w (getVoteResult answerId) = Resolved (signed_sum kept))
  ∧ outcome (relay_with [vote_event "A" "+" 1; vote_event "A" "-" 2; vote_event "B" "+" 1]
                        None ack_ok)
            (getVoteResult "answer")
    = Resolved 0.
Proof.
  split_and!.
  - intros w answerId. eexists. split; [apply latestVotes_kept|].
    simpl. by rewrite voteResult_sum.
  - intros w answerId Hall. eexists. split.
    + rewrite <- (filter_votes_all _ Hall) at 1. apply latestVotes_kept.
    + unfold outcome. simpl. by rewrite voteResult_sum.
  - by vm_compute.
Qed.

Lemma getVoteResult_latest_vote_per_author_witness :
  let events := [vote_event "A" "+" 1; vote_event "A" "-" 2; vote_event "B" "+" 1] in
  let w := relay_with events None ack_ok in
  Forall (fun e => is_vote e = true) (w_list w [voteFilter "answer"])
  ∧ ∃ kept, latest_per_author (w_list w [voteFilter "answer"]) kept
            ∧ outcome w (getVoteResult "answer") = Resolved (signed_sum kept).
Proof.
  intros events w.
  assert (Forall (fun e => is_vote e = true) (w_list w [voteFilter "answer"])) as Hall
    by (repeat constructor).
  split; [exact Hall|].
  exact (proj1 (proj2 getVoteResult_latest_vote_per_author) w "answer" Hall).
Defined.

(** C1 as stated fails: A votes [+] at 1 and sends [x] at 2.  The
    latest event of A is the one with [x], which counts nothing, so
    every selection of the latest event per author sums to 0; the
    code answers 1. *)
Lemma latest_event_of_each_author_is_not_the_tally :
  outcome (relay_with [vote_event "A" "+" 1; vote_event "A" "x" 2] None ack_ok)
          (getVoteResult "answer") = Resolved 1
  ∧ ∀ kept, latest_per_author [vote_event "A" "+" 1; vote_event "A" "x" 2] kept →
            signed_sum kept = 0.
Proof.
  split; [by vm_compute|].
  intros kept (_ & Hlatest & _).
  induction kept as [|v kept IH]; [done|].
  simpl. rewrite IH by (intros; apply Hlatest; by right).
  destruct (Hlatest v) as [Hin Hmax]; [by left|].
  apply elem_of_cons in Hin as [->|Hin].
  - specialize (Hmax (vote_event "A" "x" 2)). simpl in Hmax.
    exfalso. cut (2 ≤ 1)%Z; [lia|]. apply Hmax; [|done]. right. left.
  - apply list_elem_of_singleton in Hin as ->. done.
Qed.

Lemma not_vote e : content e ≠ "+" → content e ≠ "-" → is_vote e = false.
Proof.
  intros Hplus Hminus. unfold is_vote.
  by rewrite (proj2 (String.eqb_neq _ _) Hplus), (proj2 (String.eqb_neq _ _) Hminus).
Qed.

(** C8: the vote tally ignores malformed content: an event of the
    list whose content is neither [+] nor [-] contributes nothing,
    the tally is that of the list without it. *)
Theorem getVoteResult_ignores_malformed_content (w : World) (answerId : string)
    (before after : list Event) (e : Event) :
  content e ≠ "+" → content e ≠ "-" →
  w_list w [voteFilter answerId] = before ++ e :: after →
  outcome w (getVoteResult answerId) = Resolved (voteResult (before ++ after)).
Proof.
  intros Hplus Hminus Hlist. unfold outcome. simpl. rewrite Hlist.
  by rewrite voteResult_skip by by apply not_vote.
Qed.

Lemma getVoteResult_ignores_malformed_content_witness :
  let e := vote_event "B" "x" 5 in
  let before := [vote_event "A" "+" 1] in
  let after := [vote_event "B" "-" 2] in
  let w := relay_with (before ++ e :: after) None ack_ok in
  content e ≠ "+" ∧ content e ≠ "-"
  ∧ w_list w [voteFilter "answer"] = before ++ e :: after
  ∧ outcome w (getVoteResult "answer") = Resolved (voteResult (before ++ after)).
Proof.
  intros e before after w.
  assert (content e ≠ "+") as Hplus by (simpl; discriminate).
  assert (content e ≠ "-") as Hminus by (simpl; discriminate).
  assert (w_list w [voteFilter "answer"] = before ++ e :: after) as Hlist by reflexivity.
  split; [exact Hplus|]. split; [exact Hminus|]. split; [exact Hlist|].
  exact (getVoteResult_ignores_malformed_content w "answer" before after e Hplus Hminus Hlist).
Defined.

(** C9: events with another content than [+] or [-] are left out
    before the latest vote of an author is chosen: an author who has
    a [+] or [-] event contributes the [+1] or [-1] of the latest of
    these, whatever else the author sent later. *)
Theorem getVoteResult_filters_before_selecting (w : World) (answerId author : string) :
  let events := w_list w [voteFilter answerId] in
  (∃ e, e ∈ events ∧ pubkey e = author ∧ is_vote e = true) →
  ∃ v, v ∈ events ∧ pubkey v = author ∧ is_vote v = true
       ∧ (∀ e, e ∈ events → pubkey e = author → is_vote e = true →
               (created_at e ≤ created_at v)%Z)
       ∧ (score v = 1 ∨ score v = -1)
       ∧ outcome w (getVoteResult answerId)
         = Resolved (voteResult (by_others author events) + score v).
Proof.
  intros events (e & He & Hauthor & Hvote).
  destruct (latestVotes_is_Some events author e) as [v Hv]; [done..|].
  exists v. destruct (latestVotes_Some _ _ _ Hv) as (Hin & Hvote' & Hauthor' & Hmax).
  split_and!; [done..| |by apply vote_score|].
  - intros e' ? ? ?. by apply Hmax.
  - unfold outcome. simpl. fold events. by rewrite (voteResult_author _ _ _ Hv).
Qed.

Lemma getVoteResult_filters_before_selecting_witness :
  let events := [vote_event "A" "+" 1; vote_event "A" "x" 2] in
  let w := relay_with events None ack_ok in
  (∃ e, e ∈ events ∧ pubkey e = "A" ∧ is_vote e = true)
  ∧ ∃ v, v ∈ w_list w [voteFilter "answer"] ∧ pubkey v = "A" ∧ is_vote v = true
       ∧ (∀ e, e ∈ w_list w [voteFilter "answer"] → pubkey e = "A" → is_vote e = true →
               (created_at e ≤ created_at v)%Z)
       ∧ (score v = 1 ∨ score v = -1)
       ∧ outcome w (getVoteResult "answer")
         = Resolved (voteResult (by_others "A" (w_list w [voteFilter "answer"])) + score v).
Proof.
  intros events w.
  assert (∃ e, e ∈ events ∧ pubkey e = "A" ∧ is_vote e = true) as Hsome.
  { exists (vote_event "A" "+" 1). split; [left|]. split; reflexivity. }
  split; [exact Hsome|].
  exact (getVoteResult_filters_before_selecting w "answer" "A" Hsome).
Defined.

End VoteTally.

(** ** The list of answers *)

Section Answers.

Lemma has_p_tag_spec event :
  has_p_tag event = true ↔ ∃ tag, tag ∈ tags event ∧ head tag = Some "p".
Proof.
  unfold has_p_tag. rewrite existsb_exists. split.
  - intros ([|s0 rest] & Hin & Hp); [done|]. apply String.eqb_eq in Hp as ->.
    exists ("p" :: rest). split; [by apply list_elem_of_In|done].
  - intros ([|s0 rest] & Hin & Hp); [done|]. injection Hp as ->.
    exists ("p" :: rest). split; [by apply list_elem_of_In|done].
Qed.

Lemma answerPosts_events events :
  a_event <$> flat_map answerPosts events
  = List.filter (fun event => negb (has_p_tag event)) events.
Proof.
  induction events as [|event events IH]; [done|]. simpl.
  rewrite fmap_app, IH. unfold answerPosts. by destruct (has_p_tag event).
Qed.

Lemma answerPosts_fields events :
  Forall (fun a => a_message a = content (a_event a) ∧ a_vote a = 0)
         (flat_map answerPosts events).
Proof.
  induction events as [|event events IH]; simpl; [done|].
  apply Forall_app. split; [|done].
  unfold answerPosts. destruct (has_p_tag event); simpl; [done|].
  by repeat constructor.
Qed.

(** C10: [listAnswers] returns exactly the events the relay returned
    that have no tag whose first element is [p], in their order, each
    with its content as message (and a vote of 0). *)
Theorem listAnswers_excludes_comments (w : World) (topicId : string) :
  let events := w_list w [answerFilter topicId] in
  ∃ answers,
    run w (listAnswers topicId)
    = (Resolved answers, [Called (relay_list [answerFilter topicId])])
    ∧ a_event <$> answers = List.filter (fun event => negb (has_p_tag event)) events
    ∧ Forall (fun a => a_message a = content (a_event a) ∧ a_vote a = 0) answers
    ∧ ∀ event, event ∈ events →
        (event ∈ a_event <$> answers ↔ ¬ ∃ tag, tag ∈ tags event ∧ head tag = Some "p").
Proof.
  intros events. exists (flat_map answerPosts events).
  split_and!; [done|apply answerPosts_events|apply answerPosts_fields|].
  intros event Hin. rewrite answerPosts_events, <- has_p_tag_spec.
  rewrite list_elem_of_In, filter_In, <- list_elem_of_In, negb_true_iff.
  rewrite not_true_iff_false. tauto.
Qed.

Lemma listAnswers_excludes_comments_witness :
  let events := [answer_event "a1" "an answer" [];
                 answer_event "c1" "a comment" [["p"; "a1"]]] in
  let w := relay_with events None ack_ok in
  ∃ answers,
    run w (listAnswers "topic")
    = (Resolved answers, [Called (relay_list [answerFilter "topic"])])
    ∧ a_event <$> answers
      = List.filter (fun event => negb (has_p_tag event)) (w_list w [answerFilter "topic"])
    ∧ Forall (fun a => a_message a = content (a_event a) ∧ a_vote a = 0) answers
    ∧ ∀ event, event ∈ w_list w [answerFilter "topic"] →
        (event ∈ a_event <$> answers ↔ ¬ ∃ tag, tag ∈ tags event ∧ head tag = Some "p").
Proof.
  intros events w. exact (listAnswers_excludes_comments w "topic").
Defined.

End Answers.

(** ** The payment total *)

Section Zaps.
Context `{Runtime}.

Lemma find_tag_typed (ts : list (list string)) name :
  find_tag (map (fun t => JArr (map JStr t)) ts) name
  = Ok ((fun t => JArr (map JStr t))
        <$> List.find (fun t => match t with
                                | t0 :: _ => (t0 =? name)%string
                                | [] => false
                                end) ts).
Proof.
  induction ts as [|t ts IH]; [done|]. simpl.
  destruct t as [|t0 t]; simpl; [exact IH|].
  destruct (t0 =? name)%string; [done|exact IH].
Qed.

Lemma getTag_any_typed (ts : list (list string)) name :
  getTag_any (tags_value ts) name = Ok (optional_string_value (getTag ts name)).
Proof.
  unfold getTag_any, tags_value, getTag. rewrite find_tag_typed. simpl.
  destruct (List.find _ ts) as [t|]; simpl; [|done].
  destruct t as [|t0 [|t1 t]]; done.
Qed.

Lemma zapAmount_missing e :
  present (getTag (tags e) "description") = false → zapAmount e = Ok (number_of_Z 0).
Proof. unfold zapAmount. by intros ->. Qed.

Lemma zapAmount_unparseable e d :
  getTag (tags e) "description" = Some d → d ≠ "" → JSON_parse d = None →
  zapAmount e = Thrown SyntaxError.
Proof.
  intros Hd Hne Hparse. unfold zapAmount. rewrite Hd. simpl.
  rewrite (proj2 (String.eqb_neq _ _) Hne). simpl. unfold parse. by rewrite Hparse.
Qed.

Lemma zapAmount_request e d members ts a :
  getTag (tags e) "description" = Some d → d ≠ "" →
  JSON_parse d = Some (JObj members) →
  own_property members "tags" = Some (tags_value ts) →
  getTag ts "amount" = Some a → a ≠ "" →
  zapAmount e = Ok (number_div (StringToNumber a) (number_of_Z 1000)).
Proof.
  intros Hd Hne Hparse Htags Ha Hane. unfold zapAmount. rewrite Hd. simpl.
  rewrite (proj2 (String.eqb_neq _ _) Hne). simpl. unfold parse. rewrite Hparse.
  unfold get_member, mbind, result_bind. rewrite Htags. unfold default, id.
  rewrite getTag_any_typed, Ha. simpl.
  by rewrite (proj2 (String.eqb_neq _ _) Hane).
Qed.

Lemma mapM_result_Ok {A B} (f : A → result B) l vs :
  Forall2 (fun x v => f x = Ok v) l vs → mapM f l = Ok vs.
Proof. induction 1 as [|x v l vs Hx _ IH]; [done|]. simpl. by rewrite Hx, IH. Qed.

Lemma mapM_result_Thrown {A B} (f : A → result B) l x err :
  x ∈ l → f x = Thrown err → ∃ err', mapM f l = Thrown err'.
Proof.
  intros Hin Hx. induction l as [|y l IH]; [by apply elem_of_nil in Hin|].
  simpl. destruct (f y) as [v|err'] eqn:Hy; [|by eexists].
  apply elem_of_cons in Hin as [->|Hin]; [congruence|].
  destruct (IH Hin) as [err' ->]. by eexists.
Qed.

Lemma mapM_result_first_Thrown {A B} (f : A → result B) before x after err :
  Forall (fun y => ∃ v, f y = Ok v) before → f x = Thrown err →
  mapM f (before ++ x :: after) = Thrown err.
Proof.
  intros Hbefore Hx. induction Hbefore as [|y before [v Hy] _ IH]; simpl.
  - by rewrite Hx.
  - by rewrite Hy, IH.
Qed.

(** C2 (amended): for every list of kind-9735 receipts, when the
    callback succeeds on every receipt the total is the sum, from 0,
    of what it returns; a receipt with no description tag, or an
    empty one, contributes 0; a receipt whose description parses to a
    request with an amount tag contributes [Number(amount) / 1000];
    a receipt whose description is not JSON makes the whole call
    fail instead of contributing 0.  The promise is rejected with
    the error of the first receipt, in the relay's order, on which
    the callback throws: with the SyntaxError of [JSON.parse] when
    the callback succeeds on every receipt before the one that is
    not JSON, and with a TypeError when a receipt before it has a
    description that parses to a request with no tags.  Two receipts
    with the embedded amounts 3000 and 5000 give the total 8. *)
Theorem getZaps_sums_or_throws (w : World) (answerId : string) :
  let events := w_list w [zapFilter answerId] in
  (∀ amounts, Forall2 (fun e amount => zapAmount e = Ok amount) events amounts →
     outcome w (getZaps answerId) = Resolved (fold_left number_add amounts (number_of_Z 0)))
  ∧ (∀ e, present (getTag (tags e) "description") = false →
       zapAmount e = Ok (number_of_Z 0))
  ∧ (∀ e d members ts a,
       getTag (tags e) "description" = Some d → d ≠ "" →
       JSON_parse d = Some (JObj members) →
       own_property members "tags" = Some (tags_value ts) →
       getTag ts "amount" = Some a → a ≠ "" →
       zapAmount e = Ok (number_div (StringToNumber a) (number_of_Z 1000)))
  ∧ (∀ e d, e ∈ events → getTag (tags e) "description" = Some d → d ≠ "" →
       JSON_parse d = None →
       ∃ err, outcome w (getZaps answerId) = Rejected err)
  ∧ (∀ before e after err, events = before ++ e :: after →
       Forall (fun x => ∃ amount, zapAmount x = Ok amount) before →
       zapAmount e = Thrown err →
       outcome w (getZaps answerId) = Rejected err)
  ∧ (∀ before e after d, events = before ++ e :: after →
       Forall (fun x => ∃ amount, zapAmount x = Ok amount) before →
       getTag (tags e) "description" = Some d → d ≠ "" → JSON_parse d = None →
       outcome w (getZaps answerId) = Rejected SyntaxError)
  ∧ outcome (relay_with [paid "3000"; paid "5000"] None ack_ok)
            (getZaps (H := ReferenceRuntime.runtime) "answer")
    = Resolved (number_of_Z 8)
  ∧ outcome (relay_with [receipt [["description"; "{}"]];
                         receipt [["description"; "not json"]]] None ack_ok)
            (getZaps (H := ReferenceRuntime.runtime) "answer")
    = Rejected TypeError.
Proof.
  intros events.
  assert (∀ before e after err, events = before ++ e :: after →
            Forall (fun x => ∃ amount, zapAmount x = Ok amount) before →
            zapAmount e = Thrown err →
            outcome w (getZaps answerId) = Rejected err) as Hfirst.
  { intros before e after err Hlist Hbefore He. unfold outcome. simpl. fold events.
    by rewrite Hlist, (mapM_result_first_Thrown _ _ _ _ _ Hbefore He). }
  split_and!; [| | | |exact Hfirst| |by vm_compute|by vm_compute].
  5: { intros before e after d Hlist Hbefore Hd Hne Hparse.
       apply (Hfirst before e after); [done..|]. by eapply zapAmount_unparseable. }
  - intros amounts Hall. unfold outcome. simpl. fold events.
    by rewrite (mapM_result_Ok _ _ _ Hall).
  - apply zapAmount_missing.
  - apply zapAmount_request.
  - intros e d Hin Hd Hne Hparse. unfold outcome. simpl. fold events.
    destruct (mapM_result_Thrown zapAmount events e SyntaxError Hin) as [err ->];
      [by eapply zapAmount_unparseable|].
    by eexists.
Qed.
End Zaps.

Lemma getZaps_sums_or_throws_witness :
  let w := relay_with [paid "3000"; paid "5000"] None ack_ok in
  Forall2 (fun e amount => zapAmount (H := ReferenceRuntime.runtime) e = Ok amount)
          (w_list w [zapFilter "answer"]) [number_of_Z 3; number_of_Z 5]
  ∧ outcome w (getZaps (H := ReferenceRuntime.runtime) "answer") = Resolved (number_of_Z 8).
Proof.
  intros w.
  assert (Forall2 (fun e amount => zapAmount (H := ReferenceRuntime.runtime) e = Ok amount)
                  (w_list w [zapFilter "answer"]) [number_of_Z 3; number_of_Z 5]) as Hall
    by (repeat constructor; by vm_compute).
  split; [exact Hall|].
  exact (proj1 (getZaps_sums_or_throws (H := ReferenceRuntime.runtime) w "answer") _ Hall).
Defined.

(** C2 as stated fails: with a second receipt whose description is
    not JSON, [JSON.parse] throws and the call is rejected. *)
Lemma getZaps_unparseable_description_throws :
  outcome (relay_with [paid "3000"; receipt [["description"; "not json"]]] None ack_ok)
          (getZaps (H := ReferenceRuntime.runtime) "answer")
  = Rejected SyntaxError.
Proof. by vm_compute. Qed.

(** ** The wait for a receipt *)

Section Wait.

Lemma deliver_subscribed invoice s event :
  subscribed s = true → subscribed (deliver invoice s event) = true.
Proof.
  intros Hs. unfold deliver, onZapEvent. rewrite Hs.
  by destruct (present _ && _).
Qed.

Lemma deliver_resolved invoice s event :
  resolved s = true → resolved (deliver invoice s event) = true.
Proof.
  intros Hs. unfold deliver, onZapEvent.
  destruct (subscribed s); [|done]. by destruct (present _ && _).
Qed.

Lemma deliver_match invoice s event :
  subscribed s = true → invoice ≠ "" → matches invoice event = true →
  resolved (deliver invoice s event) = true.
Proof.
  intros Hs Hne Hm. unfold deliver, onZapEvent, matches in *. rewrite Hs.
  destruct (getTag (tags event) "bolt11") as [bolt11|]; [|done].
  apply String.eqb_eq in Hm as ->. simpl.
  by rewrite (proj2 (String.eqb_neq _ _) Hne), String.eqb_refl.
Qed.

Lemma deliver_other invoice s event :
  matches invoice event = false → deliver invoice s event = s.
Proof.
  intros Hm. unfold deliver, onZapEvent, matches in *.
  destruct (subscribed s); [|done].
  destruct (getTag (tags event) "bolt11") as [bolt11|]; [|done].
  simpl. rewrite Hm. by rewrite andb_false_r.
Qed.

Lemma receive_subscribed invoice receipts s :
  subscribed s = true → subscribed (fold_left (deliver invoice) receipts s) = true.
Proof.
  revert s. induction receipts as [|r receipts IH]; intros s Hs; [done|].
  simpl. by apply IH, deliver_subscribed.
Qed.

Lemma receive_resolved invoice receipts s :
  resolved s = true → resolved (fold_left (deliver invoice) receipts s) = true.
Proof.
  revert s. induction receipts as [|r receipts IH]; intros s Hs; [done|].
  simpl. by apply IH, deliver_resolved.
Qed.

Lemma receive_others invoice receipts s :
  Forall (fun r => matches invoice r = false) receipts →
  fold_left (deliver invoice) receipts s = s.
Proof.
  intros Hall. revert s. induction Hall as [|r receipts Hr _ IH]; intros s; [done|].
  simpl. by rewrite deliver_other.
Qed.

(** C3 (amended): for an expected invoice that is not the empty
    string, receipts whose [bolt11] tag differs leave the wait
    pending, and on the first receipt whose tag equals the invoice
    the wait resolves and stays resolved; the subscription is not
    cancelled by it and stays open. *)
Theorem waitForZap_resolves_and_stays_subscribed
    (answerId invoice : string) (before after : list Event) (receipt : Event) :
  invoice ≠ "" →
  Forall (fun r => matches invoice r = false) before →
  matches invoice receipt = true →
  resolved (waitForZap answerId invoice before) = false
  ∧ resolved (waitForZap answerId invoice (before ++ [receipt])) = true
  ∧ resolved (waitForZap answerId invoice (before ++ receipt :: after)) = true
  ∧ subscribed (waitForZap answerId invoice (before ++ receipt :: after)) = true.
Proof.
  intros Hne Hbefore Hm. unfold waitForZap.
  rewrite !fold_left_app, !receive_others by done. simpl. split_and!.
  - done.
  - by apply deliver_match.
  - by apply receive_resolved, deliver_match.
  - by apply receive_subscribed, deliver_subscribed.
Qed.

Lemma waitForZap_resolves_and_stays_subscribed_witness :
  let other := receipt [["bolt11"; "lnbc2"]] in
  "lnbc1" ≠ ""
  ∧ Forall (fun r => matches "lnbc1" r = false) [other]
  ∧ matches "lnbc1" (paid "3000") = true
  ∧ resolved (waitForZap "answer" "lnbc1" [other]) = false
  ∧ resolved (waitForZap "answer" "lnbc1" ([other] ++ [paid "3000"])) = true
  ∧ resolved (waitForZap "answer" "lnbc1" ([other] ++ paid "3000" :: [other])) = true
  ∧ subscribed (waitForZap "answer" "lnbc1" ([other] ++ paid "3000" :: [other])) = true.
Proof.
  intros other.
  assert ("lnbc1" ≠ "") as Hne by discriminate.
  assert (Forall (fun r => matches "lnbc1" r = false) [other]) as Hothers
    by (repeat constructor).
  assert (matches "lnbc1" (paid "3000") = true) as Hm by reflexivity.
  split; [exact Hne|]. split; [exact Hothers|]. split; [exact Hm|].
  exact (waitForZap_resolves_and_stays_subscribed "answer" "lnbc1" [other] [other]
           (paid "3000") Hne Hothers Hm).
Defined.

(** The test [bolt11Tag && ...] also fails on an empty tag: no
    receipt resolves a wait for the empty invoice. *)
Lemma waitForZap_empty_invoice_stays_pending (answerId : string) (receipts : list Event) :
  resolved (waitForZap answerId "" receipts) = false.
Proof.
  unfold waitForZap.
  assert (∀ s r, deliver "" s r = s) as Hsame.
  { intros s r. unfold deliver, onZapEvent.
    destruct (subscribed s); [|done].
    destruct (getTag (tags r) "bolt11") as [bolt11|]; [|done].
    simpl. destruct (String.eqb_spec bolt11 "") as [->|Hne]; [done|].
    by rewrite andb_false_r. }
  induction receipts as [|r receipts IH]; [done|]. simpl. by rewrite Hsame.
Qed.

(** C3 as stated fails: after the matching receipt the wait is
    resolved and the subscription is still open. *)
Lemma waitForZap_match_leaves_subscription_open :
  resolved (waitForZap "answer" "lnbc1" [paid "3000"]) = true
  ∧ subscribed (waitForZap "answer" "lnbc1" [paid "3000"]) = true.
Proof. by vm_compute. Qed.

End Wait.

(** ** Single events *)

Section GetOne.
Context `{Runtime}.

Lemma question_of_Ok event question :
  question_of event = Ok question →
  ∃ parsed, JSON_parse (content event) = Some parsed
    ∧ q_id question = ev_id event ∧ q_pubkey question = pubkey event
    ∧ get_member parsed "name" = Ok (q_title question)
    ∧ get_member parsed "about" = Ok (q_message question).
Proof.
  unfold question_of, parse, mbind, result_bind.
  destruct (JSON_parse (content event)) as [parsed|]; [|done].
  destruct (get_member parsed "name") as [title|] eqn:Hname; [|done].
  destruct (get_member parsed "about") as [message|] eqn:Habout; [|done].
  intros [= <-]. by exists parsed.
Qed.

(** C4 (amended): [getQuestion], [getAnswer] and [getProfile] fail
    with a not-found [Error] when the relay returns no event; when
    one resolves, its value is what the content of the event parses
    to, taken as it is: the title and message of a question are the
    [name] and [about] members of the content ([undefined] where the
    content has none), a profile is the parsed content, an answer is
    the parsed content with the id and tags of the event. *)
Theorem get_one_not_found_or_as_parsed (w : World) (key : string) :
  (w_get w (questionFilter key) = None →
     outcome w (getQuestion key)
     = Rejected (Error ("Question with id " ++ key ++ " not found")%string))
  ∧ (w_get w (answerIdFilter key) = None →
     outcome w (getAnswer key)
     = Rejected (Error ("Answer with id " ++ key ++ " not found")%string))
  ∧ (w_get w (profileFilter key) = None →
     outcome w (getProfile key)
     = Rejected (Error ("Profile for " ++ key ++ " not found")%string))
  ∧ (∀ question, outcome w (getQuestion key) = Resolved question →
       ∃ event parsed,
         w_get w (questionFilter key) = Some event
         ∧ JSON_parse (content event) = Some parsed
         ∧ q_id question = ev_id event ∧ q_pubkey question = pubkey event
         ∧ get_member parsed "name" = Ok (q_title question)
         ∧ get_member parsed "about" = Ok (q_message question))
  ∧ (∀ answer, outcome w (getAnswer key) = Resolved answer →
       ∃ event,
         w_get w (answerIdFilter key) = Some event
         ∧ JSON_parse (content event) = Some (pa_parsed answer)
         ∧ pa_id answer = ev_id event ∧ pa_tags answer = tags event)
  ∧ (∀ profile, outcome w (getProfile key) = Resolved profile →
       ∃ event,
         w_get w (profileFilter key) = Some event
         ∧ JSON_parse (content event) = Some profile).
Proof.
  unfold outcome. simpl. split_and!.
  - by intros ->.
  - by intros ->.
  - by intros ->.
  - intros question. destruct (w_get w (questionFilter key)) as [event|]; [|done].
    destruct (question_of event) as [q|] eqn:Hq; simpl; [|done].
    intros [= ->]. destruct (question_of_Ok _ _ Hq) as (parsed & ? & ? & ? & ? & ?).
    by exists event, parsed.
  - intros answer. destruct (w_get w (answerIdFilter key)) as [event|]; [|done].
    unfold parse. destruct (JSON_parse (content event)) as [parsed|] eqn:Hp; simpl; [|done].
    destruct parsed; simpl; try done; intros [= <-]; by exists event.
  - intros profile. destruct (w_get w (profileFilter key)) as [event|]; [|done].
    unfold parse. destruct (JSON_parse (content event)) as [parsed|] eqn:Hp; simpl; [|done].
    intros [= <-]. by exists event.
Qed.
End GetOne.

(** C4 as stated fails: a question whose content is [{}] is returned
    with its title and its message undefined. *)
Lemma getQuestion_partially_populated :
  ∃ question,
    outcome (relay_with [] (Some (question_event "{}")) ack_ok)
            (getQuestion (H := ReferenceRuntime.runtime) "q1")
    = Resolved question
    ∧ q_title question = JUndefined ∧ q_message question = JUndefined
    ∧ (populated question → False).
Proof.
  eexists. split; [vm_compute; reflexivity|].
  split_and!; [done..|]. by intros [? _].
Qed.

Lemma get_one_not_found_or_as_parsed_witness :
  let w := relay_with [] None ack_ok in
  w_get w (questionFilter "q1") = None
  ∧ outcome w (getQuestion (H := ReferenceRuntime.runtime) "q1")
    = Rejected (Error "Question with id q1 not found").
Proof.
  intros w. assert (w_get w (questionFilter "q1") = None) as Hnone by reflexivity.
  split; [exact Hnone|].
  exact (proj1 (get_one_not_found_or_as_parsed (H := ReferenceRuntime.runtime) w "q1") Hnone).
Defined.

(** ** Publishing *)

Section Publishing.
Context `{Library}.

Lemma publishEvent_outcome (w : World) (signedEvent : Event) :
  outcome w (publishEvent signedEvent)
  = match w_publish w signedEvent with
    | ack_ok => Resolved (ev_id signedEvent)
    | ack_failed reason => Rejected (Reason reason)
    | ack_none => Unsettled
    end.
Proof. unfold outcome. simpl. by destruct (w_publish w signedEvent). Qed.

Lemma outcome_bind {A B : Type} (w : World) (p : Prog A) (f : A → Prog B) :
  outcome w (p ≫= f)
  = match outcome w p with
    | Resolved a => outcome w (f a)
    | Rejected e => Rejected e
    | Unsettled => Unsettled
    end.
Proof.
  unfold outcome. induction p as [a|e| |X eff k IH]; simpl;
    [by destruct (run w (f a))|done|done|apply IH].
Qed.

Lemma sign_outcome (w : World) (event : EventTemplate) :
  outcome w (sign event)
  = match finishEvent event (w_privkey w) with
    | Ok signedEvent => Resolved signedEvent
    | Thrown e => Rejected e
    end.
Proof. unfold outcome. simpl. by destruct (finishEvent event (w_privkey w)). Qed.

Lemma start_sign_then_publish (w : World) (template : EventTemplate) :
  start w (signedEvent ← sign template; Return (publishEvent signedEvent))
  = match finishEvent template (w_privkey w) with
    | Thrown e => (Threw e, [Called getPrivKey])
    | Ok signedEvent =>
        (Promised (outcome w (publishEvent signedEvent)),
         Called getPrivKey :: calls w (publishEvent signedEvent))
    end.
Proof.
  unfold outcome, calls. simpl.
  by destruct (finishEvent template (w_privkey w)).
Qed.

(** The start of [createOrUpdateQuestion] up to the signing. *)
Lemma createOrUpdateQuestion_start (w : World) (name about picture : string)
    (questionId : option string) :
  start w (createOrUpdateQuestion name about picture questionId)
  = let r := start w (signedEvent ← sign (question_template name about picture questionId
                                                            (w_url w) (w_now w));
                      Return (publishEvent signedEvent)) in
    (r.1, Called Date_now :: (if present questionId then [Called relay_url] else []) ++ r.2).
Proof.
  unfold createOrUpdateQuestion, question_template.
  cbn [mbind Prog_bind prog_bind perform start fst snd answer].
  destruct (present questionId);
    cbn [mbind Prog_bind prog_bind perform start fst snd answer push_tag
         t_kind t_created_at t_tags t_content app];
    by rewrite ?app_nil_r.
Qed.

(** The other publishing operations end in [publishEvent]: a relay
    that answers [failed] makes them reject with its reason. *)
Lemma publishing_operations_reject (w : World) (reason : string) :
  (∀ signedEvent, w_publish w signedEvent = ack_failed reason) →
  (∀ event, ∃ signedEvent, finishEvent event (w_privkey w) = Ok signedEvent) →
  (∀ name about picture questionId,
     (start w (createOrUpdateQuestion name about picture questionId)).1
     = Promised (Rejected (Reason reason)))
  ∧ (∀ topicId message, outcome w (createAnswer topicId message) = Rejected (Reason reason))
  ∧ (∀ questionId message parentId,
       outcome w (createComment questionId message parentId) = Rejected (Reason reason))
  ∧ (∀ answerId answerPubKey type,
       outcome w (vote answerId answerPubKey type) = Rejected (Reason reason))
  ∧ (∀ profile, outcome w (updateProfile profile) = Rejected (Reason reason)).
Proof.
  intros Hfailed Hsign.
  assert (∀ event, outcome w (signedEvent ← sign event; publishEvent signedEvent)
                   = Rejected (Reason reason)) as Hpublish.
  { intros event. rewrite outcome_bind, sign_outcome.
    destruct (Hsign event) as [signedEvent ->].
    by rewrite publishEvent_outcome, Hfailed. }
  split_and!; intros.
  - rewrite createOrUpdateQuestion_start, start_sign_then_publish.
    destruct (Hsign (question_template name about picture questionId (w_url w) (w_now w)))
      as [signedEvent ->].
    cbn [fst]. by rewrite publishEvent_outcome, Hfailed.
  - apply Hpublish.
  - apply Hpublish.
  - apply Hpublish.
  - apply Hpublish.
Qed.

(** C6, on the code: the promise of [deleteEvents] resolves unless
    signing throws, whatever the relay answers; when the relay
    answers [failed], the reason goes to the console in two lines and
    nowhere else, while [publishEvent] rejects with it. *)
Theorem deleteEvents_resolves_whatever_the_relay_answers (w : World) (eventId : string) :
  outcome w (deleteEvents eventId)
  = match finishEvent (deletion eventId (w_now w)) (w_privkey w) with
    | Ok _ => Resolved tt
    | Thrown e => Rejected e
    end
  ∧ match finishEvent (deletion eventId (w_now w)) (w_privkey w) with
    | Ok signedEvent =>
        match w_publish w signedEvent with
        | ack_failed reason =>
            calls w (deleteEvents eventId)
            = [Called Date_now; Called getPrivKey; Called (relay_publish signedEvent);
               Called (console_log [log_text "deletion event failed"]);
               Called (console_log [log_text reason])]
            ∧ outcome w (publishEvent signedEvent) = Rejected (Reason reason)
        | _ => True
        end
    | Thrown _ => True
    end.
Proof.
  unfold outcome, calls, deletion. simpl.
  destruct (finishEvent _ (w_privkey w)) as [signedEvent|e]; simpl; [|done].
  by destruct (w_publish w signedEvent) as [|reason|].
Qed.

(** C7: [getZapRequest] never calls the relay's publish; it signs a
    template of kind 9734 and returns the signed event, serialised
    as JSON and encoded as a URI component. *)
Theorem getZapRequest_never_publishes (w : World) (answerId receiverPubKey : string)
    (amount : number) :
  Forall (fun c => is_publish c = false) (calls w (getZapRequest answerId receiverPubKey amount))
  ∧ outcome w (getZapRequest answerId receiverPubKey amount)
    = match finishEvent (zap_request answerId receiverPubKey amount (w_url w) (w_now w))
                        (w_privkey w) with
      | Ok finishedEvent =>
          Resolved (encodeURIComponent (JSON_stringify_event finishedEvent))
      | Thrown e => Rejected e
      end
  ∧ t_kind (zap_request answerId receiverPubKey amount (w_url w) (w_now w)) = 9734.
Proof.
  unfold outcome, calls, zap_request. simpl.
  destruct (finishEvent _ (w_privkey w)) as [finishedEvent|e]; simpl;
    split_and!; try done; by repeat constructor.
Qed.

Lemma vote_publishes (w : World) (answerId answerPubKey : string) (type : VoteType) signedEvent :
  finishEvent {| t_kind := 7; t_created_at := unix_seconds (w_now w);
                 t_tags := [["t"; ZAPSTACK_TAG]; ["e"; answerId]; ["p"; answerPubKey]];
                 t_content := match type with up => "+" | down => "-" end |}
              (w_privkey w) = Ok signedEvent →
  Exists (fun c => c = Called (relay_publish signedEvent)) (calls w (vote answerId answerPubKey type)).
Proof.
  intros Hsign. unfold calls. simpl. rewrite Hsign. simpl.
  do 2 apply Exists_cons_tl. by apply Exists_cons_hd.
Qed.
End Publishing.

(** ** Connecting *)

Module ConnectionFacts.
Import Connection.

(** C5, on the code: when [connect] is called twice in a row while a
    connection is live, both calls wait for the same old socket to
    close and each then opens its own: two connections are live at
    the end, and [this.relay] is the second. *)
Lemma connect_twice_at_once_leaves_two_live :
  ∃ s, steps two_calls_at_once fresh = Some s
       ∧ live s = ["wss://a.example"; "wss://b.example"]
       ∧ relay s = Some 2%nat
       ∧ tasks s = [done; done; done].
Proof. eexists. split; [vm_compute; reflexivity|]. by vm_compute. Qed.

Lemma filter_none_open (l : list Relay) :
  Forall (fun x => socket x ≠ opened) l →
  List.filter (fun x => match socket x with opened => true | _ => false end) l = [].
Proof. induction 1 as [|x l Hx _ IH]; [done|]. simpl. by destruct (socket x). Qed.

Lemma at_most_one_live (l : list Relay) (r : nat) :
  (∀ i x, l !! i = Some x → socket x = opened → i = r) →
  (length (List.filter (fun x => match socket x with opened => true | _ => false end) l)
   ≤ 1)%nat.
Proof.
  revert r. induction l as [|x l IH]; intros r Hr; simpl; [lia|].
  destruct (socket x) eqn:Hx; try (apply (IH (pred r)); intros i y Hy Hopen;
    by rewrite <- (Hr (S i) y Hy Hopen)).
  simpl. rewrite filter_none_open; [simpl; lia|].
  apply Forall_lookup. intros i y Hi Hy.
  pose proof (Hr 0%nat x eq_refl Hx). pose proof (Hr (S i) y Hi Hy). lia.
Qed.

Lemma settled_one_live s : settled s → (length (live s) ≤ 1)%nat.
Proof.
  intros [_ Hs]. unfold live. rewrite length_fmap.
  destruct (relay s) as [r|] eqn:Hr.
  - apply (at_most_one_live _ r). intros i x Hi Hx. specialize (Hs i x Hi Hx). congruence.
  - apply (at_most_one_live _ 0%nat). intros i x Hi Hx. specialize (Hs i x Hi Hx). congruence.
Qed.

Lemma settled_closed_none_open s :
  settled s →
  Forall (fun x => socket x ≠ opened)
    (match relay s with
     | Some old => relays (close old s)
     | None => relays s
     end).
Proof.
  intros [_ Hs]. apply Forall_lookup. intros i x Hi.
  destruct (relay s) as [old|] eqn:Hr.
  - destruct (decide (i = old)) as [->|Hne].
    + cbn in Hi. rewrite list_lookup_alter_eq in Hi. destruct (relays s !! old) as [y|]; [|done].
      injection Hi as <-. simpl. by destruct (socket y).
    + cbn in Hi. rewrite list_lookup_alter_ne in Hi by done. intros Hx.
      specialize (Hs i x Hi Hx). congruence.
  - intros Hx. specialize (Hs i x Hi Hx). congruence.
Qed.

Lemma alter_last {A} (f : A → A) (l : list A) (x : A) :
  alter f (length l) (l ++ [x]) = l ++ [f x].
Proof. rewrite <- (Nat.add_0_r (length l)) at 1. by rewrite alter_app_r. Qed.

Lemma insert_last {A} (l : list A) (x y : A) :
  <[length l := y]> (l ++ [x]) = l ++ [y].
Proof. rewrite <- (Nat.add_0_r (length l)) at 1. by rewrite insert_app_r. Qed.

Lemma socket_of_last l x rl c p ts :
  socket_of (length l) {| relays := l ++ [x]; relay := rl; connected := c;
                          profile_lookups := p; tasks := ts |} = Some (socket x).
Proof. unfold socket_of. cbn [relays]. by rewrite list_lookup_middle. Qed.

Lemma set_socket_last l x f rl c p ts :
  set_socket (length l) f {| relays := l ++ [x]; relay := rl; connected := c;
                             profile_lookups := p; tasks := ts |}
  = {| relays := l ++ [{| url := url x; socket := f (socket x) |}]; relay := rl;
       connected := c; profile_lookups := p; tasks := ts |}.
Proof. unfold set_socket. cbn [relays relay connected profile_lookups tasks]. by rewrite alter_last. Qed.

Lemma set_task_last l rl c p ts t t' :
  set_task (length ts) t' {| relays := l; relay := rl; connected := c;
                             profile_lookups := p; tasks := ts ++ [t] |}
  = {| relays := l; relay := rl; connected := c; profile_lookups := p;
       tasks := ts ++ [t'] |}.
Proof. unfold set_task. cbn [relays relay connected profile_lookups tasks]. by rewrite insert_last. Qed.

(** From a state where nothing is open and the new relay has just
    been made: its socket opens and the call returns. *)
Lemma opening (l : list Relay) c p (ts : list Task) url :
  Forall (fun x => socket x ≠ opened) l →
  Forall (fun t => t = done) ts →
  let s := {| relays := l ++ [{| url := url; socket := connecting |}];
              relay := Some (length l); connected := c; profile_lookups := p;
              tasks := ts ++ [await_connect (length l)] |} in
  let sts := [socket_opens (length l); resume (length ts)] in
  ∃ s', steps sts s = Some s' ∧ settled s' ∧ live s' = [url]
        ∧ Forall (fun x => (length (live x) ≤ 1)%nat) (visited sts s).
Proof.
  intros Hl Hts s1 sts.
  set (s2 := {| relays := l ++ [{| url := url; socket := opened |}];
                relay := Some (length l); connected := true; profile_lookups := S p;
                tasks := ts ++ [await_connect (length l)] |}).
  set (s3 := {| relays := l ++ [{| url := url; socket := opened |}];
                relay := Some (length l); connected := true; profile_lookups := S p;
                tasks := ts ++ [done] |}).
  assert (step (socket_opens (length l)) s1 = Some s2) as H2.
  { unfold step, s1. rewrite socket_of_last. cbn [socket].
    by rewrite set_socket_last. }
  assert (step (resume (length ts)) s2 = Some s3) as H3.
  { unfold step, s2. cbn [tasks]. rewrite list_lookup_middle by done.
    rewrite socket_of_last. cbn [socket]. by rewrite set_task_last. }
  assert (live s1 = []) as L1.
  { unfold live. cbn. rewrite List.filter_app, (filter_none_open _ Hl). done. }
  assert (live s2 = [url]) as L2.
  { unfold live. cbn. rewrite List.filter_app, (filter_none_open _ Hl). done. }
  assert (live s3 = [url]) as L3 by exact L2.
  exists s3. split_and!.
  - unfold sts. cbn [steps]. by rewrite H2, H3.
  - split.
    + cbn. apply Forall_app. split; [done|by constructor].
    + intros i x Hi Hx. cbn in *. f_equal.
      apply lookup_app_Some in Hi as [Hi|[Hge Hi]].
      * exfalso. by apply (Forall_lookup_1 _ _ _ _ Hl Hi).
      * destruct (i - length l)%nat as [|k] eqn:Hk; [lia|done].
  - exact L3.
  - unfold sts. cbn [visited]. rewrite H2, H3.
    rewrite !Forall_cons, L1, L2, L3. cbn [length]. split_and!; (lia || done).
Qed.

(** The same from the [await] of the old socket, which has closed. *)
Lemma second_half (l : list Relay) rl c p (ts : list Task) old url :
  Forall (fun x => socket x ≠ opened) l →
  Forall (fun t => t = done) ts →
  match socket <$> l !! old with Some closed | None => True | _ => False end →
  let s := {| relays := l; relay := rl; connected := c; profile_lookups := p;
              tasks := ts ++ [await_close old url] |} in
  let sts := [resume (length ts); socket_opens (length l); resume (length ts)] in
  ∃ s', steps sts s = Some s' ∧ settled s' ∧ live s' = [url]
        ∧ Forall (fun x => (length (live x) ≤ 1)%nat) (visited sts s).
Proof.
  intros Hl Hts Hold s sts.
  set (s1 := {| relays := l ++ [{| url := url; socket := connecting |}];
                relay := Some (length l); connected := c; profile_lookups := p;
                tasks := ts ++ [await_connect (length l)] |}).
  assert (step (resume (length ts)) s = Some s1) as H1.
  { unfold step, s. cbn [tasks]. rewrite list_lookup_middle by done.
    unfold socket_of. cbn [relays].
    destruct (socket <$> l !! old) as [[]|]; try done;
      unfold open_new; cbn [relays relay connected profile_lookups tasks];
      by rewrite set_task_last. }
  destruct (opening l c p ts url Hl Hts) as (s' & Hsteps & Hsettled & Hlive & Hvisited).
  exists s'. unfold sts. cbn [steps visited]. rewrite H1. split_and!; [done..|].
  apply Forall_cons. split; [|done].
  apply filter_none_open in Hl. unfold live. cbn. rewrite Hl. simpl. lia.
Qed.

(** A call of [connect] that runs alone, from a state with no call in
    progress, leaves exactly one live connection, to its url, and at
    most one is live on the way. *)
Theorem connect_alone_one_live (s : Service) (url : string) :
  settled s →
  ∃ s', steps (connect_alone url s) s = Some s'
        ∧ settled s' ∧ live s' = [url]
        ∧ Forall (fun x => (length (live x) ≤ 1)%nat) (visited (connect_alone url s) s).
Proof.
  intros Hs. pose proof (settled_one_live s Hs) as Hone.
  pose proof (settled_closed_none_open s Hs) as Hnone.
  destruct Hs as [Hts _]. destruct s as [l rl c p ts]. destruct rl as [old|]; cbn in Hts, Hnone.
  - (* a relay is there: it is closed first *)
    set (l' := alter (fun x => {| url := Connection.url x;
                                  socket := start_closing (socket x) |}) old l) in *.
    set (s0 := {| relays := l; relay := Some old; connected := c;
                  profile_lookups := p; tasks := ts |}) in *.
    set (sc := {| relays := l'; relay := Some old; connected := c;
                  profile_lookups := p; tasks := ts ++ [await_close old url] |}).
    assert (step (call url) s0 = Some sc) as Hcall. { reflexivity. }
    assert (live sc = []) as Lc.
    { pose proof (filter_none_open _ Hnone) as Hf. unfold live. cbn. by rewrite Hf. }
    assert (socket_of old sc = start_closing <$> socket_of old s0) as Hold.
    { unfold socket_of, sc, s0, l'. cbn [relays]. rewrite list_lookup_alter_eq.
      by destruct (l !! old). }
    assert (length l' = length l) as Hlen by (unfold l'; by rewrite length_alter).
    assert (∀ rest, (∃ s', steps rest sc = Some s' ∧ settled s' ∧ live s' = [url]
                          ∧ Forall (fun x => (length (live x) ≤ 1)%nat) (visited rest sc)) →
                    ∃ s', steps (call url :: rest) s0 = Some s' ∧ settled s' ∧ live s' = [url]
                          ∧ Forall (fun x => (length (live x) ≤ 1)%nat)
                                   (visited (call url :: rest) s0)) as Hafter_call.
    { intros rest (s' & Hsteps & Hsettled & Hlive & Hvisited). exists s'.
      cbn [steps visited]. rewrite Hcall. split_and!; [done..|].
      apply Forall_cons. by split. }
    destruct (socket_of old s0) as [k|] eqn:Hk.
    + assert (k = closed ∨ k ≠ closed ∧ socket_of old sc = Some closing) as [->|[Hk' Hclosing]]
        by (rewrite Hold; destruct k; auto).
      * (* closed already *)
        replace (connect_alone url s0)
          with (call url :: [resume (length ts); socket_opens (length l'); resume (length ts)])
          by (unfold connect_alone; cbn [relay tasks relays s0]; by rewrite Hk, Hlen).
        apply Hafter_call, second_half; [done..|].
        change (socket <$> l' !! old) with (socket_of old sc). by rewrite Hold.
      * (* the socket closes, then the call goes on *)
        set (l'' := alter (fun x => {| url := Connection.url x; socket := closed |}) old l').
        set (sd := {| relays := l''; relay := Some old; connected := false;
                      profile_lookups := p; tasks := ts ++ [await_close old url] |}).
        assert (step (socket_closes old) sc = Some sd) as Hcloses.
        { unfold step. by rewrite Hclosing. }
        assert (Forall (fun x => socket x ≠ opened) l'') as Hnone'.
        { apply Forall_alter; [done|]. by intros. }
        assert (live sd = []) as Ld.
        { pose proof (filter_none_open _ Hnone') as Hf. unfold live. cbn. by rewrite Hf. }
        assert (length l'' = length l) as Hlen' by (unfold l''; by rewrite length_alter).
        replace (connect_alone url s0)
          with (call url :: socket_closes old
                  :: [resume (length ts); socket_opens (length l''); resume (length ts)])
          by (unfold connect_alone; cbn [relay tasks relays s0]; rewrite Hk, Hlen';
              by destruct k).
        apply Hafter_call.
        destruct (second_half l'' (Some old) false p ts old url Hnone' Hts)
          as (s' & Hsteps & Hsettled & Hlive & Hvisited).
        { unfold l''. rewrite list_lookup_alter_eq.
          unfold socket_of in Hclosing. cbn [relays sc] in Hclosing.
          by destruct (l' !! old). }
        exists s'. cbn [steps visited]. rewrite Hcloses. split_and!; [done..|].
        apply Forall_cons. split; [rewrite Lc; simpl; lia|done].
    + replace (connect_alone url s0)
        with (call url :: [resume (length ts); socket_opens (length l'); resume (length ts)])
        by (unfold connect_alone; cbn [relay tasks relays s0]; by rewrite Hk, Hlen).
      apply Hafter_call, second_half; [done..|].
      change (socket <$> l' !! old) with (socket_of old sc). by rewrite Hold.
  - (* no relay yet *)
    set (s0 := {| relays := l; relay := None; connected := c;
                  profile_lookups := p; tasks := ts |}) in *.
    destruct (opening l c p ts url Hnone Hts)
      as (s' & Hsteps & Hsettled & Hlive & Hvisited).
    exists s'. unfold connect_alone. cbn [relay tasks relays s0 steps visited].
    split_and!; [done..|].
    rewrite !Forall_cons. split; [done|]. exact Hvisited.
Qed.

Lemma fresh_settled : settled fresh.
Proof. split; [done|]. by intros i x Hi. Qed.

(** Two calls, the second after the first has returned: the one
    live connection is that of the second. *)
Corollary connect_one_after_the_other (s : Service) (urlA urlB : string) :
  settled s →
  ∃ s1 s2, steps (connect_alone urlA s) s = Some s1
           ∧ steps (connect_alone urlB s1) s1 = Some s2
           ∧ live s1 = [urlA] ∧ live s2 = [urlB].
Proof.
  intros Hs.
  destruct (connect_alone_one_live s urlA Hs) as (s1 & Hsteps1 & Hs1 & Hlive1 & _).
  destruct (connect_alone_one_live s1 urlB Hs1) as (s2 & Hsteps2 & _ & Hlive2 & _).
  by exists s1, s2.
Qed.

End ConnectionFacts.

(** ** The vote tally: order, ties and bounds *)

Section TallyOrder.

Lemma later_fold_max l best v :
  fold_left later l best = Some v →
  (best = Some v ∨ v ∈ l)
  ∧ (∀ b, best = Some b → (created_at b ≤ created_at v)%Z)
  ∧ (∀ e, e ∈ l → (created_at e ≤ created_at v)%Z).
Proof.
  destruct best as [b|].
  - destruct (later_fold_some l b) as (v' & Hv' & Hin & Hle & Hall).
    rewrite Hv'. intros [= <-]. split_and!.
    + destruct Hin as [->|Hin]; auto.
    + by intros ? [= <-].
    + done.
  - pose proof (later_fold_none l) as Hl. destruct l as [|b l]; [done|].
    destruct Hl as (v' & Hv' & Hin & Hall). rewrite Hv'. intros [= <-].
    split_and!; [by right|done|done].
Qed.

Lemma votes_by_Permutation a l l' : l ≡ₚ l' → votes_by a l ≡ₚ votes_by a l'.
Proof.
  unfold votes_by. induction 1 as [|x l l' _ IH|x y l|l l' l'' _ IH1 _ IH2]; simpl.
  - done.
  - destruct (is_vote x && (pubkey x =? a)%string); [by constructor|done].
  - destruct (is_vote x && (pubkey x =? a)%string), (is_vote y && (pubkey y =? a)%string);
      try done. apply perm_swap.
  - by etrans.
Qed.

Lemma latestVotes_Permutation events events' :
  events ≡ₚ events' → no_ties events → latestVotes events = latestVotes events'.
Proof.
  intros Hperm Hties. apply map_eq. intros a. rewrite !latestVotes_lookup.
  pose proof (votes_by_Permutation a _ _ Hperm) as Hp.
  destruct (fold_left later (votes_by a events) None) as [v|] eqn:Hv;
    destruct (fold_left later (votes_by a events') None) as [v'|] eqn:Hv'.
  - f_equal.
    apply later_fold_max in Hv as ([|Hin] & _ & Hmax); [done|].
    apply later_fold_max in Hv' as ([|Hin'] & _ & Hmax'); [done|].
    pose proof (Hmax v' ltac:(by rewrite Hp)) as H1.
    pose proof (Hmax' v ltac:(by rewrite <- Hp)) as H2.
    apply elem_of_votes_by in Hin as (? & ? & ?).
    rewrite <- Hp in Hin'. apply elem_of_votes_by in Hin' as (? & ? & ?).
    apply Hties; try done; [congruence|lia].
  - pose proof (later_fold_none (votes_by a events')) as Hn.
    destruct (votes_by a events') as [|b l]; [|destruct Hn as (? & ? & _); congruence].
    apply Permutation_nil_r in Hp. by rewrite Hp in Hv.
  - pose proof (later_fold_none (votes_by a events)) as Hn.
    destruct (votes_by a events) as [|b l]; [|destruct Hn as (? & ? & _); congruence].
    symmetry in Hp. apply Permutation_nil_r in Hp. by rewrite Hp in Hv'.
  - done.
Qed.

(** X1: the tally does not depend on the order in which the relay
    returns the votes, as long as no author has two different valid
    votes of the same time. *)
Theorem getVoteResult_order_independent (w w' : World) (answerId : string) :
  w_list w [voteFilter answerId] ≡ₚ w_list w' [voteFilter answerId] →
  no_ties (w_list w [voteFilter answerId]) →
  outcome w (getVoteResult answerId) = outcome w' (getVoteResult answerId).
Proof.
  intros Hperm Hties. unfold outcome. simpl. unfold voteResult.
  by rewrite (latestVotes_Permutation _ _ Hperm Hties).
Qed.

Lemma later_fold_first a (events : list Event) best v :
  fold_left later (votes_by a events) best = Some v →
  (best = Some v
   ∧ ∀ e, e ∈ events → is_vote e = true → pubkey e = a → (created_at e ≤ created_at v)%Z)
  ∨ ∃ before after,
      events = before ++ v :: after
      ∧ is_vote v = true ∧ pubkey v = a
      ∧ (∀ b, best = Some b → (created_at b < created_at v)%Z)
      ∧ (∀ e, e ∈ before → is_vote e = true → pubkey e = a →
              (created_at e < created_at v)%Z)
      ∧ (∀ e, e ∈ after → is_vote e = true → pubkey e = a →
              (created_at e ≤ created_at v)%Z).
Proof.
  revert best. induction events as [|e events IH]; intros best Hv.
  - left. split; [done|]. intros e He. by apply elem_of_nil in He.
  - unfold votes_by in Hv. simpl in Hv.
    destruct (is_vote e && (pubkey e =? a)%string) eqn:He.
    + apply andb_true_iff in He as [Hvote Ha]. apply String.eqb_eq in Ha.
      simpl in Hv. destruct (IH _ Hv) as [[Hbest Hmax]|(before & after & -> & ? & ? & Hb & Hbefore & Hafter)].
      * (* the kept vote is the one after [e] *)
        unfold later in Hbest. destruct best as [b|].
        -- destruct (Z.ltb_spec (created_at b) (created_at e)).
           ++ injection Hbest as <-. right. exists [], events. split_and!; try done.
              ** by intros ? [= <-].
              ** intros x Hx. by apply elem_of_nil in Hx.
           ++ injection Hbest as <-. left. split; [done|].
              intros x [->|Hx]%elem_of_cons ? ?; [lia|by apply Hmax].
        -- injection Hbest as <-. right. exists [], events. split_and!; try done.
           intros x Hx. by apply elem_of_nil in Hx.
      * right. exists (e :: before), after. split_and!; try done.
        -- intros b ->. simpl in Hb. destruct (Z.ltb_spec (created_at b) (created_at e)).
           ++ specialize (Hb e eq_refl). lia.
           ++ by apply Hb.
        -- intros x [->|Hx]%elem_of_cons ? ?; [|by apply Hbefore].
           unfold later in Hb. destruct best as [b|].
           ++ destruct (Z.ltb_spec (created_at b) (created_at e)).
              ** by apply Hb.
              ** specialize (Hb b eq_refl). lia.
           ++ by apply Hb.
    + destruct (IH _ Hv) as [[Hbest Hmax]|(before & after & -> & ? & ? & Hb & Hbefore & Hafter)].
      * left. split; [done|]. intros x [->|Hx]%elem_of_cons Hvote Ha; [|by apply Hmax].
        apply String.eqb_eq in Ha. by rewrite Hvote, Ha in He.
      * right. exists (e :: before), after. split_and!; try done.
        intros x [->|Hx]%elem_of_cons Hvote Ha; [|by apply Hbefore].
        apply String.eqb_eq in Ha. by rewrite Hvote, Ha in He.
Qed.

(** X2: the vote kept for an author is the first of the author's
    latest valid votes in the relay's order: every valid vote of the
    author before it is strictly earlier, none after it is later. *)
Theorem latestVotes_keeps_first_of_latest (events : list Event) (author : string) (v : Event) :
  latestVotes events !! author = Some v →
  ∃ before after,
    events = before ++ v :: after
    ∧ (∀ e, e ∈ before → is_vote e = true → pubkey e = author →
            (created_at e < created_at v)%Z)
    ∧ (∀ e, e ∈ after → is_vote e = true → pubkey e = author →
            (created_at e ≤ created_at v)%Z).
Proof.
  rewrite latestVotes_lookup. intros Hv.
  destruct (later_fold_first _ _ _ _ Hv) as [[? _]|(before & after & ? & _ & _ & _ & ? & ?)];
    [done|]. by exists before, after.
Qed.

Lemma signed_sum_bound kept : (- Z.of_nat (length kept) ≤ signed_sum kept ≤ Z.of_nat (length kept))%Z.
Proof.
  induction kept as [|e kept IH]; simpl; [lia|].
  unfold score. destruct (content e =? "+")%string; [lia|].
  destruct (content e =? "-")%string; lia.
Qed.

Lemma latestVotes_authors events :
  dom (latestVotes events) ⊆ (list_to_set (pubkey <$> List.filter is_vote events) : gset string).
Proof.
  intros a [v Hv]%elem_of_dom. apply latestVotes_Some in Hv as (Hin & Hvote & <- & _).
  apply elem_of_list_to_set, list_elem_of_fmap. exists v. split; [done|].
  by apply elem_of_filter_votes.
Qed.

(** X3: the tally always resolves, and its absolute value is at most
    the number of different authors of valid votes. *)
Theorem getVoteResult_bounded_by_voters (w : World) (answerId : string) :
  ∃ tally,
    outcome w (getVoteResult answerId) = Resolved tally
    ∧ (Z.abs tally
       ≤ Z.of_nat (length (remove_dups
                             (pubkey <$> List.filter is_vote (w_list w [voteFilter answerId])))))%Z.
Proof.
  eexists. split; [done|]. set (events := w_list w [voteFilter answerId]).
  change (answer w (relay_list [voteFilter answerId])) with events.
  rewrite voteResult_sum.
  pose proof (signed_sum_bound (map_to_list (latestVotes events)).*2) as Hb.
  rewrite length_fmap in Hb.
  rewrite length_map_to_list in Hb.
  rewrite <- size_dom in Hb.
  pose proof (subseteq_size _ _ (latestVotes_authors events)) as Hs.
  rewrite <- (size_list_to_set (C := gset string)) by apply NoDup_remove_dups.
  replace (list_to_set (remove_dups (pubkey <$> List.filter is_vote events)) : gset string)
    with (list_to_set (pubkey <$> List.filter is_vote events) : gset string); [lia|].
  apply set_eq. intros a. by rewrite !elem_of_list_to_set, elem_of_remove_dups.
Qed.

Lemma recordVote_known m e v :
  m !! pubkey e = Some v → (created_at e ≤ created_at v)%Z → recordVote m e = m.
Proof.
  intros Hv Hle. unfold recordVote. rewrite Hv.
  destruct ((content e =? "+") || (content e =? "-"))%string; [|done].
  by destruct (Z.ltb_spec (created_at v) (created_at e)); [lia|].
Qed.

(** X4: an event the relay returns a second time changes nothing. *)
Theorem voteResult_ignores_redelivery (first middle last : list Event) (e : Event) :
  voteResult (first ++ e :: middle ++ e :: last) = voteResult (first ++ e :: middle ++ last).
Proof.
  unfold voteResult, latestVotes. f_equal.
  rewrite !fold_left_app. simpl. rewrite !fold_left_app. simpl. f_equal.
  destruct (is_vote e) eqn:Hvote; [|by apply recordVote_not_vote].
  set (m0 := fold_left recordVote first ∅).
  destruct (fold_left recordVote middle (recordVote m0 e) !! pubkey e) as [v|] eqn:Hv.
  - apply (recordVote_known _ _ v); [done|].
    change (fold_left recordVote middle (recordVote m0 e))
      with (fold_left recordVote (e :: middle) m0) in Hv.
    rewrite latestVotes_from_lookup in Hv.
    apply later_fold_max in Hv as (_ & _ & Hmax). apply Hmax, elem_of_votes_by.
    split; [left|done].
  - change (fold_left recordVote middle (recordVote m0 e))
      with (fold_left recordVote (e :: middle) m0) in Hv.
    rewrite latestVotes_from_lookup in Hv. unfold votes_by in Hv. simpl in Hv.
    rewrite Hvote, String.eqb_refl in Hv. simpl in Hv.
    destruct (later_fold_some (List.filter (fun e0 => is_vote e0 && (pubkey e0 =? pubkey e)%string) middle)
                (match later (m0 !! pubkey e) e with Some x => x | None => e end))
      as (v & Hv' & _).
    destruct (later (m0 !! pubkey e) e) as [x|] eqn:Hl; [congruence|].
    unfold later in Hl. destruct (m0 !! pubkey e) as [b|]; [|done].
    by destruct (created_at b <? created_at e)%Z.
Qed.

Lemma by_others_fresh a (events : list Event) :
  a ∉ pubkey <$> events → by_others a events = events.
Proof.
  unfold by_others. induction events as [|e events IH]; [done|].
  rewrite fmap_cons, not_elem_of_cons. intros [Hne Hnot]. simpl.
  rewrite (proj2 (String.eqb_neq _ _)) by done. simpl. by rewrite IH.
Qed.

(** X5: when every event is a valid vote and no author has two, the
    tally is the number of [+] less the number of [-]. *)
Theorem one_vote_each_is_summed (w : World) (answerId : string) :
  NoDup (pubkey <$> w_list w [voteFilter answerId]) →
  Forall (fun e => is_vote e = true) (w_list w [voteFilter answerId]) →
  outcome w (getVoteResult answerId) = Resolved (signed_sum (w_list w [voteFilter answerId])).
Proof.
  unfold outcome. simpl. generalize (w_list w [voteFilter answerId]). clear w answerId.
  intros events Hnodup Hall. f_equal.
  induction Hall as [|e events He _ IH]; [done|].
  rewrite fmap_cons in Hnodup. apply NoDup_cons in Hnodup as [Hfresh Hnodup].
  assert (latestVotes (e :: events) !! pubkey e = Some e) as Hv.
  { rewrite latestVotes_lookup. unfold votes_by. simpl.
    rewrite He, String.eqb_refl. simpl.
    replace (List.filter (fun e0 => is_vote e0 && (pubkey e0 =? pubkey e)%string) events)
      with (@nil Event); [done|].
    symmetry. clear -Hfresh. induction events as [|x events IH]; [done|].
    rewrite fmap_cons, not_elem_of_cons in Hfresh. destruct Hfresh as [Hne Hfresh].
    simpl. rewrite (proj2 (String.eqb_neq (pubkey x) (pubkey e))) by done.
    rewrite andb_false_r. by apply IH. }
  rewrite (voteResult_author _ _ _ Hv). unfold by_others at 1. simpl.
  rewrite String.eqb_refl. simpl. fold (by_others (pubkey e) events).
  rewrite by_others_fresh by done. rewrite IH by done. simpl. lia.
Qed.

End TallyOrder.

Lemma getVoteResult_order_independent_witness :
  let events := [vote_event "A" "+" 1; vote_event "B" "-" 1] in
  let w := relay_with events None ack_ok in
  let w' := relay_with (rev events) None ack_ok in
  w_list w [voteFilter "answer"] ≡ₚ w_list w' [voteFilter "answer"]
  ∧ no_ties (w_list w [voteFilter "answer"])
  ∧ outcome w (getVoteResult "answer") = outcome w' (getVoteResult "answer").
Proof.
  intros events w w'.
  assert (w_list w [voteFilter "answer"] ≡ₚ w_list w' [voteFilter "answer"]) as Hperm
    by apply perm_swap.
  assert (no_ties (w_list w [voteFilter "answer"])) as Hties.
  { intros e1 e2 He1 He2 _ _ Hsame _. simpl in He1, He2.
    apply elem_of_cons in He1 as [->|He1]; apply elem_of_cons in He2 as [->|He2];
      try apply list_elem_of_singleton in He1 as ->;
      try apply list_elem_of_singleton in He2 as ->; done. }
  split; [exact Hperm|]. split; [exact Hties|].
  exact (getVoteResult_order_independent w w' "answer" Hperm Hties).
Defined.

Lemma latestVotes_keeps_first_of_latest_witness :
  let first := vote_event "A" "+" 1 in
  let events := [first; vote_event "A" "-" 1] in
  latestVotes events !! "A" = Some first
  ∧ ∃ before after,
      events = before ++ first :: after
      ∧ (∀ e, e ∈ before → is_vote e = true → pubkey e = "A" →
              (created_at e < created_at first)%Z)
      ∧ (∀ e, e ∈ after → is_vote e = true → pubkey e = "A" →
              (created_at e ≤ created_at first)%Z).
Proof.
  intros first events.
  assert (latestVotes events !! "A" = Some first) as Hv by (by vm_compute).
  split; [exact Hv|].
  exact (latestVotes_keeps_first_of_latest events "A" first Hv).
Defined.

Lemma one_vote_each_is_summed_witness :
  let events := [vote_event "A" "+" 1; vote_event "B" "-" 2; vote_event "C" "+" 3] in
  let w := relay_with events None ack_ok in
  NoDup (pubkey <$> w_list w [voteFilter "answer"])
  ∧ Forall (fun e => is_vote e = true) (w_list w [voteFilter "answer"])
  ∧ outcome w (getVoteResult "answer") = Resolved (signed_sum (w_list w [voteFilter "answer"])).
Proof.
  intros events w.
  assert (NoDup (pubkey <$> w_list w [voteFilter "answer"])) as Hnodup.
  { simpl. repeat (apply NoDup_cons; split;
      [intros Hx; repeat (apply elem_of_cons in Hx as [Hx|Hx]; [discriminate|]);
       by apply elem_of_nil in Hx|]).
    apply NoDup_nil_2. }
  assert (Forall (fun e => is_vote e = true) (w_list w [voteFilter "answer"])) as Hall
    by (repeat constructor).
  split; [exact Hnodup|]. split; [exact Hall|].
  exact (one_vote_each_is_summed w "answer" Hnodup Hall).
Defined.

(** ** Tags *)

Section TagLookup.

Lemma find_named_skip (before : list (list string)) name rest :
  (∀ t, t ∈ before → head t ≠ Some name) →
  List.find (fun t => match t with
                      | t0 :: _ => (t0 =? name)%string
                      | [] => false
                      end) (before ++ rest)
  = List.find (fun t => match t with
                        | t0 :: _ => (t0 =? name)%string
                        | [] => false
                        end) rest.
Proof.
  induction before as [|t before IH]; intros Hno; [done|]. simpl.
  destruct t as [|t0 t].
  - apply IH. intros x Hx. apply Hno. by right.
  - destruct (String.eqb_spec t0 name) as [->|Hne].
    + exfalso. apply (Hno (name :: t)); [left|done].
    + apply IH. intros x Hx. apply Hno. by right.
Qed.

(** X6: [getTag] answers from the first tag of the name, with its
    second element or nothing when it has none, however many tags of
    the name follow; where no tag has the name it finds nothing. *)
Theorem getTag_first_tag_of_the_name (before after : list (list string))
    (tagName : string) (values : list string) :
  (∀ t, t ∈ before → head t ≠ Some tagName) →
  getTag (before ++ (tagName :: values) :: after) tagName = head values
  ∧ getTag before tagName = None.
Proof.
  intros Hno. unfold getTag. split.
  - rewrite find_named_skip by done. simpl. rewrite String.eqb_refl. by destruct values.
  - rewrite <- (app_nil_r before), find_named_skip by done. done.
Qed.

End TagLookup.

Lemma getTag_first_tag_of_the_name_witness :
  let before := [["e"; "answer"]; ["p"; "receiver"]] in
  (∀ t, t ∈ before → head t ≠ Some "bolt11")
  ∧ getTag (before ++ ("bolt11" :: ["lnbc1"]) :: [["bolt11"; "lnbc2"]]) "bolt11"
    = head ["lnbc1"]
  ∧ getTag before "bolt11" = None.
Proof.
  intros before.
  assert (∀ t, t ∈ before → head t ≠ Some "bolt11") as Hno.
  { intros t [->|Ht]%elem_of_cons; [done|]. by apply list_elem_of_singleton in Ht as ->. }
  split; [exact Hno|].
  exact (getTag_first_tag_of_the_name before [["bolt11"; "lnbc2"]] "bolt11" ["lnbc1"] Hno).
Defined.

(** ** Reading what the relay returns *)

Section Reading.
Context `{Runtime}.

(** X7: the payment total is rejected with the error of the first
    receipt, in the relay's order, whose amount cannot be read;
    whatever follows that receipt is not looked at. *)
Theorem getZaps_fails_with_the_first_error (w : World) (answerId : string)
    (before after : list Event) (e : Event) (err : JsError) :
  w_list w [zapFilter answerId] = before ++ e :: after →
  Forall (fun x => ∃ amount, zapAmount x = Ok amount) before →
  zapAmount e = Thrown err →
  outcome w (getZaps answerId) = Rejected err.
Proof.
  intros Hlist Hbefore He. unfold outcome. simpl. rewrite Hlist.
  by rewrite (mapM_result_first_Thrown _ _ _ _ _ Hbefore He).
Qed.

(** X8: of a receipt whose description parses, a request with no
    array of tags throws a TypeError, and a request whose tags hold
    no amount counts 0. *)
Theorem zapAmount_of_a_parsed_description (e : Event) (d : string) (request : jsval) :
  getTag (tags e) "description" = Some d → d ≠ "" →
  JSON_parse d = Some request →
  ((∀ elems, get_member request "tags" ≠ Ok (JArr elems)) →
     zapAmount e = Thrown TypeError)
  ∧ (∀ ts, get_member request "tags" = Ok (tags_value ts) →
       present (getTag ts "amount") = false →
       zapAmount e = Ok (number_of_Z 0)).
Proof.
  intros Hd Hne Hparse. unfold zapAmount. rewrite Hd. simpl.
  rewrite (proj2 (String.eqb_neq _ _) Hne). simpl. unfold parse. rewrite Hparse.
  unfold mbind, result_bind. split.
  - intros Hno. destruct (get_member request "tags") as [zapTags|err] eqn:Htags.
    + destruct zapTags; try done. by destruct (Hno elems).
    + destruct request; simpl in Htags; congruence.
  - intros ts -> Hamount. rewrite getTag_any_typed.
    destruct (getTag ts "amount") as [a|]; [|done].
    simpl in *. by destruct (a =? "")%string.
Qed.

Lemma mapM_result_length {A B} (f : A → result B) l vs :
  mapM f l = Ok vs → Forall2 (fun x v => f x = Ok v) l vs.
Proof.
  revert vs. induction l as [|x l IH]; intros vs; simpl.
  - intros [= <-]. constructor.
  - destruct (f x) as [v|] eqn:Hx; [|done]. simpl.
    destruct (mapM f l) as [vs'|] eqn:Hl; [|done]. simpl.
    intros [= <-]. constructor; [done|by apply IH].
Qed.

(** X9: when the list of questions resolves, it holds one question
    for each event of the relay, in the relay's order, with the
    event's id and author and the [name] and [about] of its parsed
    content. *)
Theorem listQuestions_one_question_per_event (w : World) (questions : list Question) :
  outcome w listQuestions = Resolved questions →
  Forall2 (fun event question =>
             q_id question = ev_id event ∧ q_pubkey question = pubkey event
             ∧ ∃ parsed, JSON_parse (content event) = Some parsed
                         ∧ get_member parsed "name" = Ok (q_title question)
                         ∧ get_member parsed "about" = Ok (q_message question))
          (w_list w [{| kinds := Some [40]; ids := None; authors := None;
                        f_t := Some [ZAPSTACK_TAG]; f_e := None; f_p := None;
                        limit := None |}])
          questions.
Proof.
  unfold outcome. simpl.
  destruct (mapM question_of _) as [qs|] eqn:Hqs; simpl; [|done].
  intros [= <-]. apply mapM_result_length in Hqs.
  eapply Forall2_impl; [exact Hqs|]. intros event question Hq.
  destruct (question_of_Ok _ _ Hq) as (parsed & ? & ? & ? & ? & ?).
  split_and!; [done..|]. by exists parsed.
Qed.

(** X10: one event whose content is not JSON, or is [null], makes
    the whole list of questions fail. *)
Theorem listQuestions_fails_on_a_bad_content (w : World) (event : Event) :
  event ∈ w_list w [{| kinds := Some [40]; ids := None; authors := None;
                      f_t := Some [ZAPSTACK_TAG]; f_e := None; f_p := None;
                      limit := None |}] →
  JSON_parse (content event) = None ∨ JSON_parse (content event) = Some JNull →
  ∃ err, outcome w listQuestions = Rejected err.
Proof.
  intros Hin Hbad. unfold outcome. simpl.
  assert (∃ err, question_of event = Thrown err) as [err Herr].
  { unfold question_of, parse. destruct Hbad as [-> | ->]; by eexists. }
  destruct (mapM_result_Thrown question_of _ event err Hin Herr) as [err' ->].
  by eexists.
Qed.

(** X11: when a single event is read with success.  A question:
    when the relay has the event and its content parses to anything
    but [null].  An answer: when the content parses to an object or
    an array, which can take the id and the tags.  A profile: when
    the content parses. *)
Theorem get_one_succeeds_exactly_when (w : World) (key : string) :
  ((∃ question, outcome w (getQuestion key) = Resolved question)
   ↔ ∃ event parsed, w_get w (questionFilter key) = Some event
                     ∧ JSON_parse (content event) = Some parsed ∧ parsed ≠ JNull
                     ∧ parsed ≠ JUndefined)
  ∧ ((∃ answer, outcome w (getAnswer key) = Resolved answer)
     ↔ ∃ event parsed, w_get w (answerIdFilter key) = Some event
                       ∧ JSON_parse (content event) = Some parsed
                       ∧ ((∃ members, parsed = JObj members) ∨ ∃ elems, parsed = JArr elems))
  ∧ ((∃ profile, outcome w (getProfile key) = Resolved profile)
     ↔ ∃ event parsed, w_get w (profileFilter key) = Some event
                       ∧ JSON_parse (content event) = Some parsed).
Proof.
  unfold outcome. simpl. split_and!.
  - destruct (w_get w (questionFilter key)) as [event|]; simpl.
    2: { split; [by intros [? [=]]|by intros (? & ? & [=] & _)]. }
    unfold question_of, parse.
    destruct (JSON_parse (content event)) as [parsed|] eqn:Hp; simpl.
    2: { split; [by intros [? [=]]|]. intros (? & ? & [= <-] & Hp' & _). congruence. }
    split.
    + intros [q Hq]. exists event, parsed. split_and!; [done..| |]; by intros ->.
    + intros (? & ? & [= <-] & Hp' & Hnull & Hundef).
      rewrite Hp in Hp'. injection Hp' as <-. destruct parsed; try done; by eexists.
  - destruct (w_get w (answerIdFilter key)) as [event|]; simpl.
    2: { split; [by intros [? [=]]|by intros (? & ? & [=] & _)]. }
    unfold parse. destruct (JSON_parse (content event)) as [parsed|] eqn:Hp; simpl.
    2: { split; [by intros [? [=]]|]. intros (? & ? & [= <-] & Hp' & _). congruence. }
    split.
    + intros [q Hq]. exists event, parsed. split_and!; [done..|].
      destruct parsed; try done; eauto.
    + intros (? & ? & [= <-] & Hp' & Hshape).
      rewrite Hp in Hp'. injection Hp' as <-.
      destruct Hshape as [[? ->]|[? ->]]; by eexists.
  - destruct (w_get w (profileFilter key)) as [event|]; simpl.
    2: { split; [by intros [? [=]]|by intros (? & ? & [=] & _)]. }
    unfold parse. destruct (JSON_parse (content event)) as [parsed|] eqn:Hp; simpl.
    2: { split; [by intros [? [=]]|]. intros (? & ? & [= <-] & Hp'). congruence. }
    split; [intros _; by exists event, parsed|by eexists].
Qed.

End Reading.

Lemma getZaps_fails_with_the_first_error_witness :
  let no_tags := receipt [["description"; "{}"]] in
  let after := [receipt [["description"; "not json"]]] in
  let w := relay_with ([paid "3000"] ++ no_tags :: after) None ack_ok in
  w_list w [zapFilter "answer"] = [paid "3000"] ++ no_tags :: after
  ∧ Forall (fun x => ∃ amount, zapAmount (H := ReferenceRuntime.runtime) x = Ok amount)
           [paid "3000"]
  ∧ zapAmount (H := ReferenceRuntime.runtime) no_tags = Thrown TypeError
  ∧ outcome w (getZaps (H := ReferenceRuntime.runtime) "answer") = Rejected TypeError.
Proof.
  intros no_tags after w.
  assert (w_list w [zapFilter "answer"] = [paid "3000"] ++ no_tags :: after) as Hlist
    by reflexivity.
  assert (Forall (fun x => ∃ amount, zapAmount (H := ReferenceRuntime.runtime) x = Ok amount)
                 [paid "3000"]) as Hbefore.
  { repeat constructor. eexists. by vm_compute. }
  assert (zapAmount (H := ReferenceRuntime.runtime) no_tags = Thrown TypeError) as Herr
    by (by vm_compute).
  split; [exact Hlist|]. split; [exact Hbefore|]. split; [exact Herr|].
  exact (getZaps_fails_with_the_first_error (H := ReferenceRuntime.runtime)
           w "answer" [paid "3000"] after no_tags TypeError Hlist Hbefore Herr).
Defined.

Lemma zapAmount_of_a_parsed_description_witness :
  let e := receipt [["description"; "{}"]] in
  getTag (tags e) "description" = Some "{}"
  ∧ "{}" ≠ ""
  ∧ JSON_parse (Runtime := ReferenceRuntime.runtime) "{}" = Some (JObj [])
  ∧ (∀ elems, get_member (JObj []) "tags" ≠ Ok (JArr elems))
  ∧ zapAmount (H := ReferenceRuntime.runtime) e = Thrown TypeError.
Proof.
  intros e.
  assert (getTag (tags e) "description" = Some "{}") as Hd by reflexivity.
  assert ("{}" ≠ "") as Hne by discriminate.
  assert (JSON_parse (Runtime := ReferenceRuntime.runtime) "{}" = Some (JObj [])) as Hparse
    by (by vm_compute).
  assert (∀ elems, get_member (JObj []) "tags" ≠ Ok (JArr elems)) as Hno by discriminate.
  split; [exact Hd|]. split; [exact Hne|]. split; [exact Hparse|]. split; [exact Hno|].
  exact (proj1 (zapAmount_of_a_parsed_description (H := ReferenceRuntime.runtime)
                  e "{}" (JObj []) Hd Hne Hparse) Hno).
Defined.

Lemma listQuestions_one_question_per_event_witness :
  let w := relay_with [question_event question_content] None ack_ok in
  let questions := [{| q_id := "q1"; q_pubkey := "author";
                       q_title := JStr "Q1"; q_message := JStr "body" |}] in
  outcome w (listQuestions (H := ReferenceRuntime.runtime)) = Resolved questions
  ∧ Forall2 (fun event question =>
               q_id question = ev_id event ∧ q_pubkey question = pubkey event
               ∧ ∃ parsed, JSON_parse (Runtime := ReferenceRuntime.runtime) (content event)
                           = Some parsed
                           ∧ get_member parsed "name" = Ok (q_title question)
                           ∧ get_member parsed "about" = Ok (q_message question))
            (w_list w [{| kinds := Some [40]; ids := None; authors := None;
                          f_t := Some [ZAPSTACK_TAG]; f_e := None; f_p := None;
                          limit := None |}])
            questions.
Proof.
  intros w questions.
  assert (outcome w (listQuestions (H := ReferenceRuntime.runtime)) = Resolved questions)
    as Hq by (by vm_compute).
  split; [exact Hq|].
  exact (listQuestions_one_question_per_event (H := ReferenceRuntime.runtime) w questions Hq).
Defined.

Lemma listQuestions_fails_on_a_bad_content_witness :
  let bad := question_event "not json" in
  let w := relay_with [question_event question_content; bad] None ack_ok in
  bad ∈ w_list w [{| kinds := Some [40]; ids := None; authors := None;
                     f_t := Some [ZAPSTACK_TAG]; f_e := None; f_p := None;
                     limit := None |}]
  ∧ (JSON_parse (Runtime := ReferenceRuntime.runtime) (content bad) = None
     ∨ JSON_parse (Runtime := ReferenceRuntime.runtime) (content bad) = Some JNull)
  ∧ ∃ err, outcome w (listQuestions (H := ReferenceRuntime.runtime)) = Rejected err.
Proof.
  intros bad w.
  assert (bad ∈ w_list w [{| kinds := Some [40]; ids := None; authors := None;
                            f_t := Some [ZAPSTACK_TAG]; f_e := None; f_p := None;
                            limit := None |}]) as Hin by (right; left).
  assert (JSON_parse (Runtime := ReferenceRuntime.runtime) (content bad) = None
          ∨ JSON_parse (Runtime := ReferenceRuntime.runtime) (content bad) = Some JNull)
    as Hbad by (left; by vm_compute).
  split; [exact Hin|]. split; [exact Hbad|].
  exact (listQuestions_fails_on_a_bad_content (H := ReferenceRuntime.runtime) w bad Hin Hbad).
Defined.

(** ** The log of a wait *)

Section WaitLog.

Lemma deliver_console invoice s event :
  subscribed s = true → invoice ≠ "" →
  deliver invoice s event
  = if matches invoice event
    then {| resolved := true; subscribed := true;
            console := console s ++ [[log_text "we got the event we wanted:";
                                      log_event event]] |}
    else s.
Proof.
  intros Hs Hne. unfold deliver, onZapEvent, matches. rewrite Hs.
  destruct (getTag (tags event) "bolt11") as [bolt11|]; [|done]. simpl.
  destruct (String.eqb_spec bolt11 invoice) as [->|Hne'].
  - rewrite (proj2 (String.eqb_neq _ _) Hne). simpl. unfold act. simpl. by rewrite Hs.
  - by rewrite andb_false_r.
Qed.

Lemma receive_console invoice receipts s :
  subscribed s = true → invoice ≠ "" →
  let s' := fold_left (deliver invoice) receipts s in
  subscribed s' = true
  ∧ resolved s' = resolved s || existsb (matches invoice) receipts
  ∧ console s'
    = console s ++ ((fun event => [log_text "we got the event we wanted:"; log_event event])
                    <$> List.filter (matches invoice) receipts).
Proof.
  intros Hs Hne. revert s Hs. induction receipts as [|r receipts IH]; intros s Hs; simpl.
  - by rewrite orb_false_r, app_nil_r.
  - rewrite deliver_console by done. destruct (matches invoice r) eqn:Hm.
    + destruct (IH {| resolved := true; subscribed := true;
                     console := console s ++ [[log_text "we got the event we wanted:";
                                               log_event r]] |} eq_refl)
        as (Hsub & Hres & Hcon).
      split_and!; [done| |].
      * rewrite Hres. simpl. by rewrite orb_true_r.
      * rewrite Hcon. simpl. by rewrite <- app_assoc.
    + destruct (IH s Hs) as (Hsub & Hres & Hcon). by split_and!.
Qed.

(** X12: for an invoice that is not empty, the wait is resolved
    exactly when some receipt carries the invoice, and the console
    gets one line for every such receipt, also for those that come
    after the first. *)
Theorem waitForZap_keeps_answering (answerId invoice : string) (receipts : list Event) :
  invoice ≠ "" →
  resolved (waitForZap answerId invoice receipts) = existsb (matches invoice) receipts
  ∧ console (waitForZap answerId invoice receipts)
    = (fun event => [log_text "we got the event we wanted:"; log_event event])
      <$> List.filter (matches invoice) receipts.
Proof.
  intros Hne. unfold waitForZap.
  destruct (receive_console invoice receipts
              {| resolved := false; subscribed := true; console := [] |} eq_refl Hne)
    as (_ & Hres & Hcon).
  by split.
Qed.

End WaitLog.

Lemma waitForZap_keeps_answering_witness :
  let receipts := [paid "3000"; receipt [["bolt11"; "lnbc2"]]; paid "5000"] in
  "lnbc1" ≠ ""
  ∧ resolved (waitForZap "answer" "lnbc1" receipts) = existsb (matches "lnbc1") receipts
  ∧ console (waitForZap "answer" "lnbc1" receipts)
    = (fun event => [log_text "we got the event we wanted:"; log_event event])
      <$> List.filter (matches "lnbc1") receipts.
Proof.
  intros receipts.
  assert ("lnbc1" ≠ "") as Hne by discriminate.
  split; [exact Hne|].
  exact (waitForZap_keeps_answering "answer" "lnbc1" receipts Hne).
Defined.

(** ** The calls of the reading operations *)

Section RelayQueries.
Context `{Runtime}.

(** X13: every operation that reads a list makes one call, to
    [list] with its one filter, and nothing else, whether it then
    resolves or is rejected. *)
Theorem list_queries_ask_the_relay_once (w : World) (key : string) :
  calls w (getVoteResult key) = [Called (relay_list [voteFilter key])]
  ∧ calls w (getZaps key) = [Called (relay_list [zapFilter key])]
  ∧ calls w (listAnswers key) = [Called (relay_list [answerFilter key])]
  ∧ calls w (listComments key)
    = [Called (relay_list [{| kinds := Some [42]; ids := None; authors := None;
                              f_t := Some [ZAPSTACK_TAG]; f_e := None;
                              f_p := Some [key]; limit := None |}])]
  ∧ calls w listQuestions
    = [Called (relay_list [{| kinds := Some [40]; ids := None; authors := None;
                              f_t := Some [ZAPSTACK_TAG]; f_e := None; f_p := None;
                              limit := None |}])].
Proof.
  unfold calls. simpl. split_and!; try done.
  - by destruct (mapM zapAmount _).
  - by destruct (mapM question_of _).
Qed.

(** X14: every operation that reads one event makes one call, to
    [get] with its filter, and nothing else, whether the event is
    found or not and whether its content can be read or not. *)
Theorem get_queries_ask_the_relay_once (w : World) (key : string) :
  calls w (getQuestion key) = [Called (relay_get (questionFilter key))]
  ∧ calls w (getAnswer key) = [Called (relay_get (answerIdFilter key))]
  ∧ calls w (getProfile key) = [Called (relay_get (profileFilter key))].
Proof.
  unfold calls. simpl. split_and!.
  - destruct (w_get w (questionFilter key)) as [event|]; simpl; [|done].
    by destruct (question_of event).
  - destruct (w_get w (answerIdFilter key)) as [event|]; simpl; [|done].
    destruct (parse (content event)) as [v|]; simpl; [|done].
    by destruct (set_id_and_tags v event).
  - destruct (w_get w (profileFilter key)) as [event|]; simpl; [|done].
    by destruct (parse (content event)).
Qed.

End RelayQueries.

(** ** What is published *)

Section Published.
Context `{Library}.

Lemma sign_then_publish_outcome (w : World) (template : EventTemplate) :
  outcome w (signedEvent ← sign template; publishEvent signedEvent) = published w template.
Proof.
  unfold published. rewrite outcome_bind, sign_outcome.
  destruct (finishEvent template (w_privkey w)) as [signedEvent|e]; [|done].
  apply publishEvent_outcome.
Qed.

(** X15: what the five publishing operations come to.  When
    [finishEvent] throws, the four [async] ones are rejected with
    its error, and [createOrUpdateQuestion], which is not [async],
    throws it at its caller.  When it signs, each of the five gives
    a promise: resolved with the id of the signed event when the
    relay accepts it, rejected with the relay's reason when it
    refuses, and pending for ever when it never answers. *)
Theorem publishing_operations_outcome (w : World) :
  (∀ name about picture questionId,
     (start w (createOrUpdateQuestion name about picture questionId)).1
     = started_publishing w (question_template name about picture questionId
                                               (w_url w) (w_now w)))
  ∧ (∀ topicId message,
       outcome w (createAnswer topicId message)
       = published w (answer_template topicId message (w_url w) (w_now w)))
  ∧ (∀ questionId message parentId,
       outcome w (createComment questionId message parentId)
       = published w (comment_template questionId message parentId (w_url w) (w_now w)))
  ∧ (∀ answerId answerPubKey type,
       outcome w (vote answerId answerPubKey type)
       = published w (vote_template answerId answerPubKey type (w_now w)))
  ∧ (∀ profile,
       outcome w (updateProfile profile) = published w (profile_template profile (w_now w))).
Proof.
  split_and!; intros; try apply sign_then_publish_outcome.
  rewrite createOrUpdateQuestion_start, start_sign_then_publish. unfold started_publishing.
  destruct (finishEvent _ (w_privkey w)) as [signedEvent|e]; cbn [fst]; [|done].
  by rewrite publishEvent_outcome.
Qed.

Lemma filter_publish_sign_then_publish (w : World) (template : EventTemplate) :
  List.filter is_publish (calls w (signedEvent ← sign template; publishEvent signedEvent))
  = publications w template.
Proof.
  unfold publications, calls. simpl.
  destruct (finishEvent template (w_privkey w)) as [signedEvent|e]; simpl; [|done].
  by destruct (w_publish w signedEvent).
Qed.

(** X16: a publishing operation, the deletion among them, publishes
    the signed form of its template once, and nothing when
    [finishEvent] throws. *)
Theorem publishing_operations_publish_once (w : World) :
  (∀ name about picture questionId,
     List.filter is_publish (start w (createOrUpdateQuestion name about picture questionId)).2
     = publications w (question_template name about picture questionId (w_url w) (w_now w)))
  ∧ (∀ topicId message,
       List.filter is_publish (calls w (createAnswer topicId message))
       = publications w (answer_template topicId message (w_url w) (w_now w)))
  ∧ (∀ questionId message parentId,
       List.filter is_publish (calls w (createComment questionId message parentId))
       = publications w (comment_template questionId message parentId (w_url w) (w_now w)))
  ∧ (∀ answerId answerPubKey type,
       List.filter is_publish (calls w (vote answerId answerPubKey type))
       = publications w (vote_template answerId answerPubKey type (w_now w)))
  ∧ (∀ profile,
       List.filter is_publish (calls w (updateProfile profile))
       = publications w (profile_template profile (w_now w)))
  ∧ (∀ eventId,
       List.filter is_publish (calls w (deleteEvents eventId))
       = publications w (deletion eventId (w_now w))).
Proof.
  split_and!; intros.
  - rewrite createOrUpdateQuestion_start, start_sign_then_publish. unfold publications, calls.
    destruct (finishEvent _ (w_privkey w)) as [signedEvent|e];
      destruct (present questionId); simpl; try done;
      by destruct (w_publish w signedEvent).
  - apply (filter_publish_sign_then_publish w (answer_template _ _ _ _)).
  - apply (filter_publish_sign_then_publish w (comment_template _ _ _ _ _)).
  - apply (filter_publish_sign_then_publish w (vote_template _ _ _ _)).
  - apply (filter_publish_sign_then_publish w (profile_template _ _)).
  - unfold publications, calls, deletion. simpl.
    destruct (finishEvent _ (w_privkey w)) as [signedEvent|e]; simpl; [|done].
    by destruct (w_publish w signedEvent).
Qed.

(** X17: with the empty string for an id, [createOrUpdateQuestion]
    is the same program as with no id, and it creates: what it signs
    and publishes is of kind 40, with the tags [t] and [subject] and
    no other.  With any other id it updates: what it signs and
    publishes is of kind 41, with a third tag that names the id and
    the relay's url. *)
Theorem createOrUpdateQuestion_empty_id_creates (w : World)
    (name about picture questionId : string) :
  let content := JSON_stringify (JObj [("name", JStr name); ("about", JStr about);
                                       ("picture", JStr picture)]) in
  let created := {| t_kind := 40; t_created_at := unix_seconds (w_now w);
                    t_tags := [["t"; ZAPSTACK_TAG]; ["subject"; name]];
                    t_content := content |} in
  let updated := {| t_kind := 41; t_created_at := unix_seconds (w_now w);
                    t_tags := [["t"; ZAPSTACK_TAG]; ["subject"; name];
                               ["e"; questionId; w_url w]];
                    t_content := content |} in
  questionId ≠ "" →
  createOrUpdateQuestion name about picture (Some "")
  = createOrUpdateQuestion name about picture None
  ∧ (start w (createOrUpdateQuestion name about picture None)).1
    = started_publishing w created
  ∧ List.filter is_publish (start w (createOrUpdateQuestion name about picture None)).2
    = publications w created
  ∧ (start w (createOrUpdateQuestion name about picture (Some questionId))).1
    = started_publishing w updated
  ∧ List.filter is_publish
      (start w (createOrUpdateQuestion name about picture (Some questionId))).2
    = publications w updated.
Proof.
  intros content created updated Hne.
  assert (question_template name about picture None (w_url w) (w_now w) = created) as Hc
    by done.
  assert (question_template name about picture (Some questionId) (w_url w) (w_now w)
          = updated) as Hu.
  { unfold question_template, present. by rewrite (proj2 (String.eqb_neq _ _) Hne). }
  split; [done|].
  rewrite !createOrUpdateQuestion_start, !start_sign_then_publish, Hc, Hu.
  unfold started_publishing, publications, calls, present.
  rewrite (proj2 (String.eqb_neq _ _) Hne).
  destruct (finishEvent created (w_privkey w)) as [signedEvent|e];
    destruct (finishEvent updated (w_privkey w)) as [signedEvent'|e'];
    cbn [fst snd negb app]; rewrite ?publishEvent_outcome; split_and!; try done; simpl;
    try (by destruct (w_publish w signedEvent));
    by destruct (w_publish w signedEvent').
Qed.

End Published.

Lemma createOrUpdateQuestion_empty_id_creates_witness :
  let w := relay_with [] None ack_ok in
  let content := JSON_stringify (Library := ReferenceLibrary.library)
                   (JObj [("name", JStr "Q1"); ("about", JStr "body");
                          ("picture", JStr "")]) in
  let created := {| t_kind := 40; t_created_at := unix_seconds (w_now w);
                    t_tags := [["t"; ZAPSTACK_TAG]; ["subject"; "Q1"]];
                    t_content := content |} in
  let updated := {| t_kind := 41; t_created_at := unix_seconds (w_now w);
                    t_tags := [["t"; ZAPSTACK_TAG]; ["subject"; "Q1"];
                               ["e"; "q1"; w_url w]];
                    t_content := content |} in
  "q1" ≠ ""
  ∧ createOrUpdateQuestion (H0 := ReferenceLibrary.library) "Q1" "body" "" (Some "")
    = createOrUpdateQuestion (H0 := ReferenceLibrary.library) "Q1" "body" "" None
  ∧ (start w (createOrUpdateQuestion (H0 := ReferenceLibrary.library) "Q1" "body" "" None)).1
    = started_publishing (H := ReferenceLibrary.library) w created
  ∧ List.filter is_publish
      (start w (createOrUpdateQuestion (H0 := ReferenceLibrary.library) "Q1" "body" "" None)).2
    = publications (H := ReferenceLibrary.library) w created
  ∧ (start w (createOrUpdateQuestion (H0 := ReferenceLibrary.library)
                "Q1" "body" "" (Some "q1"))).1
    = started_publishing (H := ReferenceLibrary.library) w updated
  ∧ List.filter is_publish
      (start w (createOrUpdateQuestion (H0 := ReferenceLibrary.library)
                  "Q1" "body" "" (Some "q1"))).2
    = publications (H := ReferenceLibrary.library) w updated.
Proof.
  intros w content created updated.
  assert ("q1" ≠ "") as Hne by discriminate.
  split; [exact Hne|].
  exact (createOrUpdateQuestion_empty_id_creates (H := ReferenceLibrary.library)
           w "Q1" "body" "" "q1" Hne).
Defined.

(** ** Writing and reading back *)

Section RoundTrips.
Context `{Runtime} `{Library}.

(** X18: a question read back.  When the relay returns an event
    with the content [createOrUpdateQuestion] writes, and
    [JSON.parse] undoes [JSON.stringify] on it, [getQuestion]
    resolves with the name for a title and [about] for a message;
    the picture is dropped. *)
Theorem created_question_reads_back (w : World) (key name about picture : string)
    (questionId : option string) (url : string) (now : Z) (e : Event) :
  w_get w (questionFilter key) = Some e →
  content e = t_content (question_template name about picture questionId url now) →
  JSON_parse (JSON_stringify (JObj [("name", JStr name); ("about", JStr about);
                                    ("picture", JStr picture)]))
  = Some (JObj [("name", JStr name); ("about", JStr about); ("picture", JStr picture)]) →
  outcome w (getQuestion key)
  = Resolved {| q_id := ev_id e; q_pubkey := pubkey e;
                q_title := JStr name; q_message := JStr about |}.
Proof.
  intros Hget Hcontent Hparse. unfold outcome. simpl. rewrite Hget. simpl.
  unfold question_of, parse. rewrite Hcontent. simpl. by rewrite Hparse.
Qed.

(** X19: a profile read back.  When the relay returns an event with
    the content [updateProfile] writes, and [JSON.parse] undoes
    [JSON.stringify] on it, [getProfile] resolves with the profile. *)
Theorem updated_profile_reads_back (w : World) (key : string) (profile : jsval)
    (now : Z) (e : Event) :
  w_get w (profileFilter key) = Some e →
  content e = t_content (profile_template profile now) →
  JSON_parse (JSON_stringify profile) = Some profile →
  outcome w (getProfile key) = Resolved profile.
Proof.
  intros Hget Hcontent Hparse. unfold outcome. simpl. rewrite Hget. simpl.
  unfold parse. rewrite Hcontent. simpl. by rewrite Hparse.
Qed.

(** X20: an answer is not read back.  [createAnswer] writes the
    message as it is, and [getAnswer] parses the content: on an event
    with the content [createAnswer] writes it is rejected with a
    SyntaxError when the message is not JSON, and with a TypeError
    when it is JSON for anything but an object or an array. *)
Theorem created_answer_does_not_read_back (w : World) (key topicId message url : string)
    (now : Z) (e : Event) :
  w_get w (answerIdFilter key) = Some e →
  content e = t_content (answer_template topicId message url now) →
  (JSON_parse message = None → outcome w (getAnswer key) = Rejected SyntaxError)
  ∧ (∀ parsed, JSON_parse message = Some parsed →
       (∀ members, parsed ≠ JObj members) → (∀ elems, parsed ≠ JArr elems) →
       outcome w (getAnswer key) = Rejected TypeError).
Proof.
  intros Hget Hcontent. unfold outcome. simpl. rewrite Hget. simpl.
  unfold parse. rewrite Hcontent. simpl. split.
  - by intros ->.
  - intros parsed -> Hobj Harr. destruct parsed; simpl; try done.
    + by destruct (Harr elems).
    + by destruct (Hobj members).
Qed.

(** X21: a payment request read back.  A receipt whose description
    is the text of a request [getZapRequest] signs counts the
    request's amount divided by 1000, when [JSON.parse] gives back
    the tags and [Number] reads what [toString] writes. *)
Theorem zap_request_reads_back (e finishedEvent : Event) (request : jsval)
    (answerId receiverPubKey url : string) (amount : number) (now : Z) :
  getTag (tags e) "description" = Some (JSON_stringify_event finishedEvent) →
  JSON_stringify_event finishedEvent ≠ "" →
  tags finishedEvent = t_tags (zap_request answerId receiverPubKey amount url now) →
  JSON_parse (JSON_stringify_event finishedEvent) = Some request →
  get_member request "tags" = Ok (tags_value (tags finishedEvent)) →
  Number_toString amount ≠ "" →
  StringToNumber (Number_toString amount) = amount →
  zapAmount e = Ok (number_div amount (number_of_Z 1000)).
Proof.
  intros Hd Hne Htags Hparse Hmember Hshown Hread. unfold zapAmount. rewrite Hd. simpl.
  rewrite (proj2 (String.eqb_neq _ _) Hne). simpl. unfold parse. rewrite Hparse.
  unfold mbind, result_bind. rewrite Hmember, getTag_any_typed, Htags. simpl.
  rewrite (proj2 (String.eqb_neq _ _) Hshown). simpl. by rewrite Hread.
Qed.

End RoundTrips.

Lemma created_question_reads_back_witness :
  let e := question_event question_content in
  let w := relay_with [] (Some e) ack_ok in
  w_get w (questionFilter "q1") = Some e
  ∧ content e = t_content (question_template (H := ReferenceLibrary.library)
                             "Q1" "body" "" None "wss://relay.damus.io" 1700000000000)
  ∧ JSON_parse (Runtime := ReferenceRuntime.runtime)
      (JSON_stringify (Library := ReferenceLibrary.library)
         (JObj [("name", JStr "Q1"); ("about", JStr "body"); ("picture", JStr "")]))
    = Some (JObj [("name", JStr "Q1"); ("about", JStr "body"); ("picture", JStr "")])
  ∧ outcome w (getQuestion (H := ReferenceRuntime.runtime) "q1")
    = Resolved {| q_id := ev_id e; q_pubkey := pubkey e;
                  q_title := JStr "Q1"; q_message := JStr "body" |}.
Proof.
  intros e w.
  assert (w_get w (questionFilter "q1") = Some e) as Hget by reflexivity.
  assert (content e = t_content (question_template (H := ReferenceLibrary.library)
                                   "Q1" "body" "" None "wss://relay.damus.io" 1700000000000))
    as Hcontent by reflexivity.
  assert (JSON_parse (Runtime := ReferenceRuntime.runtime)
            (JSON_stringify (Library := ReferenceLibrary.library)
               (JObj [("name", JStr "Q1"); ("about", JStr "body"); ("picture", JStr "")]))
          = Some (JObj [("name", JStr "Q1"); ("about", JStr "body"); ("picture", JStr "")]))
    as Hparse by (by vm_compute).
  split; [exact Hget|]. split; [exact Hcontent|]. split; [exact Hparse|].
  exact (created_question_reads_back (H := ReferenceRuntime.runtime)
           (H0 := ReferenceLibrary.library) w "q1" "Q1" "body" "" None
           "wss://relay.damus.io" 1700000000000 e Hget Hcontent Hparse).
Defined.

Lemma updated_profile_reads_back_witness :
  let e := {| ev_id := "p1"; pubkey := "ada"; created_at := 1700000000; kind := 0;
              tags := [["t"; ZAPSTACK_TAG]];
              content := JSON_stringify (Library := ReferenceLibrary.library) profile_value;
              ev_sig := "" |} in
  let w := relay_with [] (Some e) ack_ok in
  w_get w (profileFilter "ada") = Some e
  ∧ content e = t_content (profile_template (H := ReferenceLibrary.library)
                             profile_value 1700000000000)
  ∧ JSON_parse (Runtime := ReferenceRuntime.runtime)
      (JSON_stringify (Library := ReferenceLibrary.library) profile_value)
    = Some profile_value
  ∧ outcome w (getProfile (H := ReferenceRuntime.runtime) "ada") = Resolved profile_value.
Proof.
  intros e w.
  assert (w_get w (profileFilter "ada") = Some e) as Hget by reflexivity.
  assert (content e = t_content (profile_template (H := ReferenceLibrary.library)
                                   profile_value 1700000000000)) as Hcontent by reflexivity.
  assert (JSON_parse (Runtime := ReferenceRuntime.runtime)
            (JSON_stringify (Library := ReferenceLibrary.library) profile_value)
          = Some profile_value) as Hparse by (by vm_compute).
  split; [exact Hget|]. split; [exact Hcontent|]. split; [exact Hparse|].
  exact (updated_profile_reads_back (H := ReferenceRuntime.runtime)
           (H0 := ReferenceLibrary.library) w "ada" profile_value 1700000000000 e
           Hget Hcontent Hparse).
Defined.

Lemma created_answer_does_not_read_back_witness :
  let e := answer_event "a1" "an answer" [] in
  let w := relay_with [] (Some e) ack_ok in
  w_get w (answerIdFilter "a1") = Some e
  ∧ content e = t_content (answer_template "topic" "an answer" "wss://relay.damus.io"
                                           1700000000000)
  ∧ JSON_parse (Runtime := ReferenceRuntime.runtime) "an answer" = None
  ∧ outcome w (getAnswer (H := ReferenceRuntime.runtime) "a1") = Rejected SyntaxError.
Proof.
  intros e w.
  assert (w_get w (answerIdFilter "a1") = Some e) as Hget by reflexivity.
  assert (content e = t_content (answer_template "topic" "an answer" "wss://relay.damus.io"
                                                 1700000000000)) as Hcontent by reflexivity.
  assert (JSON_parse (Runtime := ReferenceRuntime.runtime) "an answer" = None) as Hparse
    by (by vm_compute).
  split; [exact Hget|]. split; [exact Hcontent|]. split; [exact Hparse|].
  exact (proj1 (created_answer_does_not_read_back (H := ReferenceRuntime.runtime)
                  w "a1" "topic" "an answer" "wss://relay.damus.io" 1700000000000 e
                  Hget Hcontent) Hparse).
Defined.

Lemma zap_request_reads_back_witness :
  let amount := number_of_Z 21000 in
  let text := JSON_stringify_event (Library := ReferenceLibrary.library) signed_zap_request in
  let e := receipt [["bolt11"; "lnbc1"]; ["description"; text]] in
  getTag (tags e) "description" = Some text
  ∧ text ≠ ""
  ∧ tags signed_zap_request
    = t_tags (zap_request (H := ReferenceLibrary.library) "answer" "receiver" amount
                          "wss://relay.damus.io" 1700000000000)
  ∧ JSON_parse (Runtime := ReferenceRuntime.runtime) text
    = Some (ReferenceLibrary.event_value signed_zap_request)
  ∧ get_member (ReferenceLibrary.event_value signed_zap_request) "tags"
    = Ok (tags_value (tags signed_zap_request))
  ∧ Number_toString (Library := ReferenceLibrary.library) amount ≠ ""
  ∧ StringToNumber (Runtime := ReferenceRuntime.runtime)
      (Number_toString (Library := ReferenceLibrary.library) amount) = amount
  ∧ zapAmount (H := ReferenceRuntime.runtime) e = Ok (number_of_Z 21).
Proof.
  intros amount text e.
  assert (getTag (tags e) "description" = Some text) as Hd by reflexivity.
  assert (text ≠ "") as Hne by (by vm_compute).
  assert (tags signed_zap_request
          = t_tags (zap_request (H := ReferenceLibrary.library) "answer" "receiver" amount
                                "wss://relay.damus.io" 1700000000000)) as Htags
    by reflexivity.
  assert (JSON_parse (Runtime := ReferenceRuntime.runtime) text
          = Some (ReferenceLibrary.event_value signed_zap_request)) as Hparse
    by (by vm_compute).
  assert (get_member (ReferenceLibrary.event_value signed_zap_request) "tags"
          = Ok (tags_value (tags signed_zap_request))) as Hmember by reflexivity.
  assert (Number_toString (Library := ReferenceLibrary.library) amount ≠ "") as Hshown
    by (by vm_compute).
  assert (StringToNumber (Runtime := ReferenceRuntime.runtime)
            (Number_toString (Library := ReferenceLibrary.library) amount) = amount) as Hread
    by (by vm_compute).
  split; [exact Hd|]. split; [exact Hne|]. split; [exact Htags|]. split; [exact Hparse|].
  split; [exact Hmember|]. split; [exact Hshown|]. split; [exact Hread|].
  exact (zap_request_reads_back (H := ReferenceRuntime.runtime)
           (H0 := ReferenceLibrary.library) e signed_zap_request
           (ReferenceLibrary.event_value signed_zap_request)
           "answer" "receiver" "wss://relay.damus.io" amount 1700000000000
           Hd Hne Htags Hparse Hmember Hshown Hread).
Defined.

Section Listing.

(** X22: of the events the relay returns for a topic, one with the
    tags [createAnswer] writes is listed as an answer, and one with
    the tags [createComment] writes is not. *)
Theorem answers_are_listed_comments_are_not (w : World)
    (topicId message parentId url : string) (now : Z) (a c : Event) :
  tags a = t_tags (answer_template topicId message url now) →
  tags c = t_tags (comment_template topicId message parentId url now) →
  a ∈ w_list w [answerFilter topicId] →
  ∃ answers, outcome w (listAnswers topicId) = Resolved answers
             ∧ a ∈ a_event <$> answers ∧ c ∉ a_event <$> answers.
Proof.
  intros Ha Hc Hin. eexists. split; [done|]. rewrite answerPosts_events. split.
  - apply list_elem_of_In, filter_In. split; [by apply list_elem_of_In|].
    unfold has_p_tag. by rewrite Ha.
  - rewrite list_elem_of_In, filter_In. intros [_ Hno].
    unfold has_p_tag in Hno. by rewrite Hc in Hno.
Qed.

End Listing.

Lemma answers_are_listed_comments_are_not_witness :
  let a := answer_event "a1" "an answer" [] in
  let c := {| ev_id := "c1"; pubkey := "author"; created_at := 1700000000; kind := 42;
              tags := t_tags (comment_template "topic" "a comment" "a1"
                                               "wss://relay.damus.io" 1700000000000);
              content := "a comment"; ev_sig := "" |} in
  let w := relay_with [a; c] None ack_ok in
  tags a = t_tags (answer_template "topic" "an answer" "wss://relay.damus.io" 1700000000000)
  ∧ tags c = t_tags (comment_template "topic" "a comment" "a1" "wss://relay.damus.io"
                                      1700000000000)
  ∧ a ∈ w_list w [answerFilter "topic"]
  ∧ ∃ answers, outcome w (listAnswers "topic") = Resolved answers
               ∧ a ∈ a_event <$> answers ∧ c ∉ a_event <$> answers.
Proof.
  intros a c w.
  assert (tags a = t_tags (answer_template "topic" "an answer" "wss://relay.damus.io"
                                           1700000000000)) as Ha by reflexivity.
  assert (tags c = t_tags (comment_template "topic" "a comment" "a1" "wss://relay.damus.io"
                                            1700000000000)) as Hc by reflexivity.
  assert (a ∈ w_list w [answerFilter "topic"]) as Hin by left.
  split; [exact Ha|]. split; [exact Hc|]. split; [exact Hin|].
  exact (answers_are_listed_comments_are_not w "topic" "an answer" "a1"
           "wss://relay.damus.io" 1700000000000 a c Ha Hc Hin).
Defined.

(** ** Connecting in turn *)

Module SequentialFacts.
Import Connection ConnectionFacts Sequential.

Lemma steps_app sts sts' s :
  steps (sts ++ sts') s = steps sts s ≫= steps sts'.
Proof.
  revert s. induction sts as [|st sts IH]; intros s; simpl; [done|].
  destruct (step st s); [apply IH|done].
Qed.

Lemma visited_app (P : Service → Prop) sts sts' s s' :
  steps sts s = Some s' →
  Forall P (visited sts s) → Forall P (visited sts' s') → Forall P (visited (sts ++ sts') s).
Proof.
  revert s. induction sts as [|st sts IH]; intros s; simpl.
  - intros [= ->] _ Hv. destruct sts'; done.
  - destruct (step st s) as [s1|] eqn:Hst; [|done]. intros Hsteps Hv Hv'.
    apply Forall_cons in Hv as [Hs Hv]. apply Forall_cons. split; [done|].
    by apply IH.
Qed.

(** X23: calls of [connect] made in turn, each run to its end
    before the next, leave the connection to the last url as the
    only live one, and at no moment is more than one live. *)
Theorem connects_in_turn_keep_one_live (s : Service) (urls : list string) :
  settled s →
  ∃ s', steps (connect_in_turn urls s) s = Some s'
        ∧ settled s'
        ∧ live s' = match last urls with
                    | Some url => [url]
                    | None => live s
                    end
        ∧ Forall (fun x => (length (live x) ≤ 1)%nat) (visited (connect_in_turn urls s) s).
Proof.
  revert s. induction urls as [|url urls IH]; intros s Hs.
  - exists s. split_and!; [done..|]. cbn [connect_in_turn visited].
    apply Forall_cons. split; [by apply settled_one_live|constructor].
  - destruct (connect_alone_one_live s url Hs) as (s1 & Hsteps & Hs1 & Hlive & Hvisited).
    destruct (IH s1 Hs1) as (s' & Hsteps' & Hs' & Hlive' & Hvisited').
    exists s'. cbn [connect_in_turn]. rewrite Hsteps. split_and!.
    + by rewrite steps_app, Hsteps.
    + done.
    + rewrite Hlive'. destruct urls as [|url' urls]; [done|]. rewrite last_cons_cons.
      destruct (last (url' :: urls)) as [x|] eqn:Hx; [done|]. by apply last_None in Hx.
    + by eapply visited_app.
Qed.

Lemma connects_in_turn_keep_one_live_witness :
  let urls := ["wss://relay.damus.io"; "wss://a.example"; "wss://b.example"] in
  settled fresh
  ∧ ∃ s', steps (connect_in_turn urls fresh) fresh = Some s'
          ∧ settled s'
          ∧ live s' = match last urls with
                      | Some url => [url]
                      | None => live fresh
                      end
          ∧ Forall (fun x => (length (live x) ≤ 1)%nat)
                   (visited (connect_in_turn urls fresh) fresh).
Proof.
  intros urls.
  assert (settled fresh) as Hs.
  { split; [constructor|]. intros i x Hi. by destruct i. }
  split; [exact Hs|].
  exact (connects_in_turn_keep_one_live fresh urls Hs).
Defined.

End SequentialFacts.
